(** * Terminal MCP server: command gatekeeping, path authorisation, logging

    A shallow embedding of the request handlers of the terminal MCP server
    (version 1.1.0: [validateCommand], [logActivity] and the three tool
    handlers [execute-command], [list_directory], [read_file]) together with
    the properties its specification states about them.

    Conventions of the embedding.
    - A JavaScript string is the list of its UTF-16 code units ([jsstring]);
      [length] is then the [.length] of the source string.
    - A JavaScript number that can reach a handler through the [z.number()]
      schema is a finite value or an infinity ([number]); the schema rejects
      NaN before the handler runs.
    - The operating system (clock, file system, child processes) is an
      [OS] record of oracles that answer each call from the history of the
      calls made so far; a handler is a function from that history to a
      completion (normal or thrown) and the extended history. *)

From Stdlib Require Import Ascii String.
From Stdlib Require Import List Bool Arith NArith ZArith QArith Lia.
Import ListNotations.
Close Scope Q_scope.

Set Implicit Arguments.

(* ------------------------------------------------------------------ *)
(** ** JavaScript strings *)

Module JsString.

Definition jsstring := list N.

(** An ASCII literal of the source as a list of code units. *)
Definition str (s : string) : jsstring :=
  map N_of_ascii (list_ascii_of_string s).

(** The escape [\n] of the source's literals. *)
Definition nl : jsstring := [10%N].

Fixpoint eqb (s t : jsstring) : bool :=
  match s, t with
  | [], [] => true
  | a :: s', b :: t' => N.eqb a b && eqb s' t'
  | _, _ => false
  end.

(** [String.prototype.startsWith]: [p] is a prefix of [s]. *)
Fixpoint startsWith (s p : jsstring) {struct p} : bool :=
  match p with
  | [] => true
  | b :: p' =>
      match s with
      | [] => false
      | a :: s' => N.eqb a b && startsWith s' p'
      end
  end.

(** [String.prototype.includes]: [p] occurs in [s] at some index. *)
Fixpoint includes (s p : jsstring) : bool :=
  startsWith s p ||
  match s with
  | [] => false
  | _ :: s' => includes s' p
  end.

(** [Array.prototype.join] on an array of strings. *)
Fixpoint join (sep : jsstring) (l : list jsstring) : jsstring :=
  match l with
  | [] => []
  | [x] => x
  | x :: rest => x ++ sep ++ join sep rest
  end.

(** Truthiness of a string value: every string but the empty one. *)
Definition truthy (s : jsstring) : bool :=
  match s with
  | [] => false
  | _ :: _ => true
  end.

End JsString.
Import JsString.

(* ------------------------------------------------------------------ *)
(** ** Regular expressions (the fragment the server uses) *)

Module RegExp.

Inductive regex : Type :=
| Void : regex
| Eps : regex
| Chr : N -> regex
| Dot : regex
| Cat : regex -> regex -> regex
| Alt : regex -> regex -> regex
| Star : regex -> regex.

(** A literal word of the pattern. *)
Fixpoint Lit (s : jsstring) : regex :=
  match s with
  | [] => Eps
  | c :: s' => Cat (Chr c) (Lit s')
  end.

(** The line terminators: without the [s] flag [.] matches every code
    unit but these. *)
Definition isLineTerminator (c : N) : bool :=
  N.eqb c 10 || N.eqb c 13 || N.eqb c 8232 || N.eqb c 8233.

(** The words a pattern denotes ([Void], the residue of a failed
    match, denotes none). *)
Inductive matches : regex -> jsstring -> Prop :=
| MEps : matches Eps []
| MChr c : matches (Chr c) [c]
| MDot c : isLineTerminator c = false -> matches Dot [c]
| MCat r1 r2 s1 s2 :
    matches r1 s1 -> matches r2 s2 -> matches (Cat r1 r2) (s1 ++ s2)
| MAltL r1 r2 s : matches r1 s -> matches (Alt r1 r2) s
| MAltR r1 r2 s : matches r2 s -> matches (Alt r1 r2) s
| MStar0 r : matches (Star r) []
| MStarS r s1 s2 :
    matches r s1 -> matches (Star r) s2 -> matches (Star r) (s1 ++ s2).

Fixpoint nullable (r : regex) : bool :=
  match r with
  | Void => false
  | Eps => true
  | Chr _ => false
  | Dot => false
  | Cat r1 r2 => nullable r1 && nullable r2
  | Alt r1 r2 => nullable r1 || nullable r2
  | Star _ => true
  end.

(** The pattern left after reading the code unit [c]. *)
Fixpoint deriv (c : N) (r : regex) : regex :=
  match r with
  | Void => Void
  | Eps => Void
  | Chr d => if N.eqb c d then Eps else Void
  | Dot => if isLineTerminator c then Void else Eps
  | Cat r1 r2 =>
      if nullable r1
      then Alt (Cat (deriv c r1) r2) (deriv c r2)
      else Cat (deriv c r1) r2
  | Alt r1 r2 => Alt (deriv c r1) (deriv c r2)
  | Star r1 => Cat (deriv c r1) (Star r1)
  end.

(** Some prefix of [s] is a word of [r]: a match that starts at index 0. *)
Fixpoint matchesAtStart (r : regex) (s : jsstring) : bool :=
  nullable r ||
  match s with
  | [] => false
  | c :: s' => matchesAtStart (deriv c r) s'
  end.

(** [RegExp.prototype.test] of a pattern without flags: a match that
    starts at some index of [s]. *)
Fixpoint test (r : regex) (s : jsstring) : bool :=
  matchesAtStart r s ||
  match s with
  | [] => false
  | _ :: s' => test r s'
  end.

End RegExp.
Import RegExp.

(* ------------------------------------------------------------------ *)
(** ** Numbers and JSON values *)

Module JsValue.

(** The numbers the [z.number()] schema lets through. *)
Inductive number : Type :=
| Finite : Q -> number
| PosInfinity : number
| NegInfinity : number.

Definition number_leb (a b : number) : bool :=
  match a, b with
  | NegInfinity, _ => true
  | _, PosInfinity => true
  | Finite p, Finite q => Qle_bool p q
  | _, _ => false
  end.

(** [Math.min] of two numbers. *)
Definition Math_min (a b : number) : number :=
  if number_leb a b then a else b.

(** The field values the server serialises into its log: strings,
    booleans and string lengths. *)
Inductive jsvalue : Type :=
| JString : jsstring -> jsvalue
| JBool : bool -> jsvalue
| JNumber : N -> jsvalue.

(** An object literal of such fields, in the order they are written. *)
Definition object := list (jsstring * jsvalue).

Definition hexDigit (n : N) : N :=
  if N.ltb n 10 then 48 + n else 87 + n.

(** The escape [\uXXXX] of a code unit, in lower-case hexadecimal. *)
Definition unicodeEscape (c : N) : jsstring :=
  [92; 117; hexDigit (N.modulo (N.div c 4096) 16);
   hexDigit (N.modulo (N.div c 256) 16);
   hexDigit (N.modulo (N.div c 16) 16);
   hexDigit (N.modulo c 16)]%N.

Definition isLeadingSurrogate (c : N) : bool :=
  N.leb 55296 c && N.leb c 56319.

Definition isTrailingSurrogate (c : N) : bool :=
  N.leb 56320 c && N.leb c 57343.

(** One code unit inside a quoted string (the literals below are the
    two-character escapes: a backslash and a letter). *)
Definition quoteUnit (c : N) : jsstring :=
  if N.eqb c 8 then str "\b"
  else if N.eqb c 9 then str "\t"
  else if N.eqb c 10 then str "\n"
  else if N.eqb c 12 then str "\f"
  else if N.eqb c 13 then str "\r"
  else if N.eqb c 34 then [92; 34]%N
  else if N.eqb c 92 then [92; 92]%N
  else if N.ltb c 32 then unicodeEscape c
  else if isLeadingSurrogate c || isTrailingSurrogate c then unicodeEscape c
  else [c].

(** The body of a quoted JSON string: a surrogate pair is kept, a lone
    surrogate and a control character are escaped. *)
Fixpoint quoteBody (s : jsstring) : jsstring :=
  match s with
  | [] => []
  | c :: rest =>
      match rest with
      | d :: rest' =>
          if isLeadingSurrogate c && isTrailingSurrogate d
          then c :: d :: quoteBody rest'
          else quoteUnit c ++ quoteBody rest
      | [] => quoteUnit c
      end
  end.

Definition quoteJSONString (s : jsstring) : jsstring :=
  [34%N] ++ quoteBody s ++ [34%N].

Fixpoint digits (u : Decimal.uint) : jsstring :=
  match u with
  | Decimal.Nil => []
  | Decimal.D0 u' => 48%N :: digits u'
  | Decimal.D1 u' => 49%N :: digits u'
  | Decimal.D2 u' => 50%N :: digits u'
  | Decimal.D3 u' => 51%N :: digits u'
  | Decimal.D4 u' => 52%N :: digits u'
  | Decimal.D5 u' => 53%N :: digits u'
  | Decimal.D6 u' => 54%N :: digits u'
  | Decimal.D7 u' => 55%N :: digits u'
  | Decimal.D8 u' => 56%N :: digits u'
  | Decimal.D9 u' => 57%N :: digits u'
  end.

(** The decimal numeral of a string length. *)
Definition numberToString (n : N) : jsstring := digits (N.to_uint n).

Definition stringifyValue (v : jsvalue) : jsstring :=
  match v with
  | JString s => quoteJSONString s
  | JBool true => str "true"
  | JBool false => str "false"
  | JNumber n => numberToString n
  end.

Definition stringifyField (f : jsstring * jsvalue) : jsstring :=
  quoteJSONString (fst f) ++ str ":" ++ stringifyValue (snd f).

(** [JSON.stringify] of an object literal, without indentation. *)
Definition JSON_stringify (o : object) : jsstring :=
  str "{" ++ join (str ",") (map stringifyField o) ++ str "}".

End JsValue.
Import JsValue.

(* ------------------------------------------------------------------ *)
(** ** Configuration *)

Record Config : Type := {
  blockedCommands : list jsstring;
  timeoutMs : number;
  maxOutputSize : N;
  allowedDirectories : list jsstring;
  logFile : jsstring
}.

Definition CONFIG : Config := {|
  blockedCommands := [str "rm -rf"; str "sudo"; str "wget"; str "curl -o"];
  timeoutMs := Finite 30000;
  maxOutputSize := 1024 * 1024;
  allowedDirectories := [str "/Users/tanmay/Documents"];
  logFile := str "./terminal-mcp.log"
|}.

(* ------------------------------------------------------------------ *)
(** ** Effects: the operating system and the history of calls *)

(** A thrown [Error] object, as far as the handlers look at it. *)
Record Error : Type := { message : jsstring }.

(** An entry of [fs.readdir] with [withFileTypes]. *)
Record Dirent : Type := { name : jsstring; isDirectory : bool }.

(** The calls a handler makes to the outside. *)
Inductive event : Type :=
| AppendFile (file data : jsstring) (written : bool)
| ConsoleError (label : jsstring) (error : Error)
| Exec (command : jsstring) (timeout : number) (maxBuffer : N)
| Readdir (path : jsstring)
| ReadFile (path : jsstring).

Definition history := list event.

(** The answers of the outside, each from the history so far. *)
Record OS : Type := {
  (** [new Date().toISOString()] *)
  toISOString : history -> jsstring;
  (** [fs.appendFile(file, data)]: [None] when the data was appended, the
      rejection otherwise. *)
  appendFile : history -> jsstring -> jsstring -> option Error;
  (** [execPromise(command, {timeout, maxBuffer})]: the rejection, or the
      captured [(stdout, stderr)]. *)
  exec : history -> jsstring -> number -> N -> Error + jsstring * jsstring;
  (** [fs.readdir(path, {withFileTypes: true})] *)
  readdir : history -> jsstring -> Error + list Dirent;
  (** [fs.readFile(path, 'utf8')] *)
  readFile : history -> jsstring -> Error + jsstring
}.

(** How a statement block ends. *)
Inductive completion (A : Type) : Type :=
| Normal : A -> completion A
| Throw : Error -> completion A.
Arguments Normal {A} _.
Arguments Throw {A} _.

(** An asynchronous function body: awaited calls run one after the other,
    and what happened before a throw stays in the history. *)
Definition M (A : Type) : Type := history -> completion A * history.

Definition ret {A} (a : A) : M A := fun h => (Normal a, h).

Definition throw {A} (e : Error) : M A := fun h => (Throw e, h).

Definition bind {A B} (m : M A) (k : A -> M B) : M B :=
  fun h =>
    match m h with
    | (Normal a, h') => k a h'
    | (Throw e, h') => (Throw e, h')
    end.

Definition try_catch {A} (body : M A) (handler : Error -> M A) : M A :=
  fun h =>
    match body h with
    | (Normal a, h') => (Normal a, h')
    | (Throw e, h') => handler e h'
    end.

(** A synchronous call that may throw, inside an asynchronous body. *)
Definition lift {A} (c : completion A) : M A := fun h => (c, h).

Declare Scope js_scope.
Delimit Scope js_scope with js_m.
Notation "x <- m ;; k" := (bind m (fun x => k))
  (at level 61, m at next level, right associativity) : js_scope.
Notation "m ;; k" := (bind m (fun _ => k))
  (at level 61, right associativity) : js_scope.
Notation "'try' b 'catch' x '=>' c" := (try_catch b (fun x => c))
  (at level 61, b at next level, x name, c at next level) : js_scope.
Open Scope js_scope.

Section Primitives.

Variable os : OS.

(** [new Date().toISOString()] *)
Definition now : M jsstring :=
  fun h => (Normal (toISOString os h), h).

(** [await fs.appendFile(file, data)] *)
Definition fs_appendFile (file data : jsstring) : M unit :=
  fun h =>
    match appendFile os h file data with
    | None => (Normal tt, h ++ [AppendFile file data true])
    | Some e => (Throw e, h ++ [AppendFile file data false])
    end.

(** [console.error(label, error)] *)
Definition console_error (label : jsstring) (error : Error) : M unit :=
  fun h => (Normal tt, h ++ [ConsoleError label error]).

(** [await execPromise(command, { timeout, maxBuffer })] *)
Definition execPromise (command : jsstring) (timeout : number)
    (maxBuffer : N) : M (jsstring * jsstring) :=
  fun h =>
    match exec os h command timeout maxBuffer with
    | inl e => (Throw e, h ++ [Exec command timeout maxBuffer])
    | inr out => (Normal out, h ++ [Exec command timeout maxBuffer])
    end.

(** [await fs.readdir(path, { withFileTypes: true })] *)
Definition fs_readdir (path : jsstring) : M (list Dirent) :=
  fun h =>
    match readdir os h path with
    | inl e => (Throw e, h ++ [Readdir path])
    | inr items => (Normal items, h ++ [Readdir path])
    end.

(** [await fs.readFile(path, 'utf8')] *)
Definition fs_readFile (path : jsstring) : M jsstring :=
  fun h =>
    match readFile os h path with
    | inl e => (Throw e, h ++ [ReadFile path])
    | inr text => (Normal text, h ++ [ReadFile path])
    end.

End Primitives.

(* ------------------------------------------------------------------ *)
(** ** The server *)

(** The template literal of a log line. *)
Definition logEntry (timestamp action : jsstring) (details : object)
    : jsstring :=
  str "[" ++ timestamp ++ str "] " ++ action ++ str ": "
    ++ JSON_stringify details ++ nl.

(** The pattern [/(cp|mv|rm|cat|echo.*>|touch|mkdir|rmdir)/]. *)
Definition fileOperationPattern : regex :=
  Alt (Lit (str "cp"))
  (Alt (Lit (str "mv"))
  (Alt (Lit (str "rm"))
  (Alt (Lit (str "cat"))
  (Alt (Cat (Lit (str "echo")) (Cat (Star Dot) (Lit (str ">"))))
  (Alt (Lit (str "touch"))
  (Alt (Lit (str "mkdir"))
       (Lit (str "rmdir")))))))).

(** [validateCommand]: the first loop throws at the first blocked pattern
    the command includes, the second loop looks for an allowed directory
    in the command, the pattern classifies the command. *)
Definition validateCommand (command : jsstring) : completion bool :=
  match find (fun blockedCmd => includes command blockedCmd)
             (blockedCommands CONFIG) with
  | Some blockedCmd =>
      Throw {| message := str "Command contains blocked pattern: "
                            ++ blockedCmd |}
  | None =>
      let isAllowed :=
        existsb (fun dir => includes command dir)
                (allowedDirectories CONFIG) in
      let isFileOperation := test fileOperationPattern command in
      if isFileOperation && negb isAllowed
      then Throw {| message :=
             str "File operations only allowed in permitted directories" |}
      else Normal true
  end.

(** The content block of a tool response. *)
Record Content : Type := { type : jsstring; text : jsstring }.

Record Response : Type := { content : list Content }.

Definition textResponse (t : jsstring) : Response :=
  {| content := [ {| type := str "text"; text := t |} ] |}.

(** The [result] string the execute-command handler builds from the
    captured output. *)
Definition formatResult (stdout stderr : jsstring) : jsstring :=
  let result := [] in
  let result :=
    if truthy stdout
    then result ++ str "Standard Output:" ++ nl ++ stdout ++ nl
    else result in
  let result :=
    if truthy stderr
    then result ++ str "Standard Error:" ++ nl ++ stderr ++ nl
    else result in
  if negb (truthy result)
  then str "Command executed successfully with no output."
  else result.

(** The [isAllowed] loop of the two path handlers. *)
Definition pathAllowed (path : jsstring) : bool :=
  existsb (fun dir => startsWith path dir) (allowedDirectories CONFIG).

(** One line of a directory listing. *)
Definition formatItem (item : Dirent) : jsstring :=
  let prefix := if isDirectory item then str "[DIR] " else str "[FILE] " in
  prefix ++ name item.

Section Server.

Variable os : OS.

Definition logActivity (action : jsstring) (details : object) : M unit :=
  timestamp <- now os ;;
  let entry := logEntry timestamp action details in
  try fs_appendFile os (logFile CONFIG) entry
  catch error =>
    console_error (str "Failed to write to log file:") error.

(** The handler of the tool [execute-command]; [timeout] is [None] when
    the caller left it out. *)
Definition execute_command (command : jsstring) (timeout : option number)
    : M Response :=
  let timeout :=
    match timeout with
    | Some t => t
    | None => timeoutMs CONFIG
    end in
  try
    (logActivity (str "COMMAND_REQUESTED")
       [(str "command", JString command)] ;;
     _ <- lift (validateCommand command) ;;
     out <- execPromise os command
              (Math_min timeout (timeoutMs CONFIG))
              (maxOutputSize CONFIG) ;;
     let result := formatResult (fst out) (snd out) in
     logActivity (str "COMMAND_EXECUTED")
       [(str "command", JString command);
        (str "success", JBool true);
        (str "outputSize", JNumber (N.of_nat (length result)))] ;;
     ret (textResponse result))
  catch error =>
    (logActivity (str "COMMAND_ERROR")
       [(str "command", JString command);
        (str "error", JString (message error))] ;;
     ret (textResponse (str "Error executing command: " ++ message error))).

(** The handler of the tool [list_directory]. *)
Definition list_directory (path : jsstring) : M Response :=
  try
    ((if negb (pathAllowed path)
      then throw {| message :=
             str "Access denied - path outside allowed directories" |}
      else ret tt) ;;
     items <- fs_readdir os path ;;
     let result := join nl (map formatItem items) in
     ret (textResponse
            (if truthy result then result else str "Directory is empty")))
  catch error =>
    ret (textResponse (str "Error listing directory: " ++ message error)).

(** The handler of the tool [read_file]. *)
Definition read_file (path : jsstring) : M Response :=
  try
    ((if negb (pathAllowed path)
      then throw {| message :=
             str "Access denied - path outside allowed directories" |}
      else ret tt) ;;
     fileContent <- fs_readFile os path ;;
     ret (textResponse fileContent))
  catch error =>
    ret (textResponse (str "Error reading file: " ++ message error)).

End Server.

(* ------------------------------------------------------------------ *)
(** ** What a history shows *)

(** The child processes spawned. *)
Definition isExec (e : event) : bool :=
  match e with
  | Exec _ _ _ => true
  | _ => false
  end.

Definition execCalls (h : history) : list event := filter isExec h.

(** The reads of the file system. *)
Definition isFsRead (e : event) : bool :=
  match e with
  | Readdir _ | ReadFile _ => true
  | _ => false
  end.

Definition fsReads (h : history) : list event := filter isFsRead h.

(** The records that reached the log file, oldest first. *)
Fixpoint logSink (h : history) : list jsstring :=
  match h with
  | [] => []
  | AppendFile file data true :: h' =>
      if JsString.eqb file (logFile CONFIG)
      then data :: logSink h'
      else logSink h'
  | _ :: h' => logSink h'
  end.

(** The records the logger tried to write, whether they were written or
    not. *)
Fixpoint logAttempts (h : history) : list jsstring :=
  match h with
  | [] => []
  | AppendFile file data _ :: h' =>
      if JsString.eqb file (logFile CONFIG)
      then data :: logAttempts h'
      else logAttempts h'
  | _ :: h' => logAttempts h'
  end.

(** What reached the diagnostic channel. *)
Definition isConsoleError (e : event) : bool :=
  match e with
  | ConsoleError _ _ => true
  | _ => false
  end.

Definition diagnostics (h : history) : list event := filter isConsoleError h.

(* ------------------------------------------------------------------ *)
(** ** Sample environments *)

Module Sample.

Definition timestamp : jsstring := str "2024-01-01T00:00:00.000Z".

(** A machine where the log is writable, [echo] works and the allowed
    directory holds one folder and one file. *)
Definition healthy : OS := {|
  toISOString := fun _ => timestamp;
  appendFile := fun _ _ _ => None;
  exec := fun _ command _ _ =>
    if JsString.eqb command (str "echo hello")
    then inr (str "hello" ++ nl, [])
    else if JsString.eqb command (str "true")
    then inr ([], [])
    else inl {| message := str "Command failed: " ++ command |};
  readdir := fun _ path =>
    if JsString.eqb path (str "/Users/tanmay/Documents")
    then inr [ {| name := str "notes"; isDirectory := true |};
               {| name := str "todo.txt"; isDirectory := false |} ]
    else if JsString.eqb path (str "/Users/tanmay/Documents/empty")
    then inr []
    else inl {| message := str "ENOENT: no such file or directory" |};
  readFile := fun _ path =>
    if JsString.eqb path (str "/Users/tanmay/Documents/todo.txt")
    then inr (str "buy milk")
    else inl {| message := str "ENOENT: no such file or directory" |}
|}.

(** The same machine with a log file that cannot be written. *)
Definition readOnlyLog : OS := {|
  toISOString := toISOString healthy;
  appendFile := fun _ _ _ =>
    Some {| message := str "EACCES: permission denied" |};
  exec := exec healthy;
  readdir := readdir healthy;
  readFile := readFile healthy
|}.

End Sample.

(* ------------------------------------------------------------------ *)
(** ** The runs of the logger, spelled out *)

(** The object literals the execute-command handler logs. *)
Definition requestedDetails (command : jsstring) : object :=
  [(str "command", JString command)].

Definition executedDetails (command result : jsstring) : object :=
  [(str "command", JString command);
   (str "success", JBool true);
   (str "outputSize", JNumber (N.of_nat (length result)))].

Definition errorDetails (command : jsstring) (error : Error) : object :=
  [(str "command", JString command);
   (str "error", JString (message error))].

(** The calls one run of [logActivity] makes when it starts from the
    history [h]: the append, and the diagnostic when the append fails. *)
Definition logActivityCalls (os : OS) (h : history)
    (action : jsstring) (details : object) : list event :=
  let entry := logEntry (toISOString os h) action details in
  match appendFile os h (logFile CONFIG) entry with
  | None => [AppendFile (logFile CONFIG) entry true]
  | Some e =>
      [AppendFile (logFile CONFIG) entry false;
       ConsoleError (str "Failed to write to log file:") e]
  end.

(** The timeout argument after the default of the parameter list. *)
Definition requestedTimeout (timeout : option number) : number :=
  match timeout with
  | Some t => t
  | None => timeoutMs CONFIG
  end.

(** A section of the response as the specification words it: the header
    line, the captured text and a line break, left out when the text is
    empty. *)
Definition outputSection (header captured : jsstring) : jsstring :=
  match captured with
  | [] => []
  | _ :: _ => header ++ nl ++ captured ++ nl
  end.

(** The order of the numbers, as a proposition. *)
Definition number_le (a b : number) : Prop := number_leb a b = true.

(* ------------------------------------------------------------------ *)
(** ** The first version of the server (1.0.0) *)

Module V1_0.

Section Handler.

Variable os : OS.

(** What [child_process.exec] takes for [timeout] and [maxBuffer] when
    it is called without options. *)
Variable defaultTimeout : number.
Variable defaultMaxBuffer : N.

(** The handler of the tool [execute-command] of version 1.0.0: it
    builds the same [result] string from the captured output. *)
Definition execute_command (command : jsstring) : M Response :=
  try
    (out <- execPromise os command defaultTimeout defaultMaxBuffer ;;
     let result := formatResult (fst out) (snd out) in
     ret (textResponse result))
  catch error =>
    ret (textResponse (str "Error executing command: " ++ message error)).

End Handler.

End V1_0.

(* ------------------------------------------------------------------ *)
(** ** The life of the process: start-up and signals *)

Module Lifecycle.

(** What the process does at start-up and shut-down: the calls the
    handlers also make, the connection of the transport, a one-text
    [console.error], and [process.exit]. *)
Inductive step : Type :=
| Call (e : event)
| Connect
| Notice (text : jsstring)
| Exit (code : Z).

Definition trace := list step.

(** The calls among the steps, as the oracles of [OS] see them. *)
Fixpoint osCalls (t : trace) : history :=
  match t with
  | [] => []
  | Call e :: t' => e :: osCalls t'
  | _ :: t' => osCalls t'
  end.

(** How an asynchronous function of the process ends: its promise is
    fulfilled, it is rejected, or the process has exited. *)
Inductive ending (A : Type) : Type :=
| Returned : A -> ending A
| Rejected : Error -> ending A
| Exited : Z -> ending A.
Arguments Returned {A} _.
Arguments Rejected {A} _.
Arguments Exited {A} _.

Definition P (A : Type) : Type := trace -> ending A * trace.

Definition andThen {A B} (p : P A) (k : A -> P B) : P B :=
  fun t =>
    match p t with
    | (Returned a, t') => k a t'
    | (Rejected e, t') => (Rejected e, t')
    | (Exited code, t') => (Exited code, t')
    end.

(** [try { body } catch (error) { handler }], and [promise.catch]. *)
Definition orCatch {A} (body : P A) (handler : Error -> P A) : P A :=
  fun t =>
    match body t with
    | (Rejected e, t') => handler e t'
    | other => other
    end.

(** An awaited function of the server, run on the calls made so far;
    the calls it adds become steps. *)
Definition call {A} (m : M A) : P A :=
  fun t =>
    let h := osCalls t in
    match m h with
    | (Normal a, h') => (Returned a, t ++ map Call (skipn (length h) h'))
    | (Throw e, h') => (Rejected e, t ++ map Call (skipn (length h) h'))
    end.

(** [console.error(text)] *)
Definition console_notice (text : jsstring) : P unit :=
  fun t => (Returned tt, t ++ [Notice text]).

(** [process.exit(code)]: nothing runs after it. *)
Definition process_exit {A} (code : Z) : P A :=
  fun t => (Exited code, t ++ [Exit code]).

Section Process.

Variable os : OS.

(** Whether building the stdio transport and [server.connect] succeed,
    from the steps so far. *)
Variable connect : trace -> option Error.

(** [new StdioServerTransport()] and [await server.connect(transport)] *)
Definition server_connect : P unit :=
  fun t =>
    match connect t with
    | None => (Returned tt, t ++ [Connect])
    | Some e => (Rejected e, t ++ [Connect])
    end.

Definition main : P unit :=
  orCatch
    (andThen
       (call (logActivity os (str "SERVER_START")
                [(str "version", JString (str "1.1.0"))]))
       (fun _ =>
          andThen server_connect
            (fun _ =>
               console_notice (str "Terminal MCP Server running on stdio"))))
    (fun error =>
       andThen (call (console_error (str "Error starting server:") error))
         (fun _ => process_exit 1)).

(** The listener of [SIGINT]. *)
Definition onSIGINT : P unit :=
  andThen
    (call (logActivity os (str "SERVER_SHUTDOWN")
             [(str "reason", JString (str "SIGINT"))]))
    (fun _ => process_exit 0).

(** The listener of [SIGTERM]. *)
Definition onSIGTERM : P unit :=
  andThen
    (call (logActivity os (str "SERVER_SHUTDOWN")
             [(str "reason", JString (str "SIGTERM"))]))
    (fun _ => process_exit 0).

End Process.

End Lifecycle.

(* ------------------------------------------------------------------ *)
(** ** Further views of a run *)

(** A text without control characters: every code unit is at least
    32. *)
Definition printable (s : jsstring) : Prop :=
  Forall (fun u => (32 <= u)%N) s.

(** More sample environments. *)
Module Scenario.

(** A machine where the file [notes.txt] of the allowed directory holds
    a text that reads like a failed read. *)
Definition forgedFile : OS := {|
  toISOString := toISOString Sample.healthy;
  appendFile := appendFile Sample.healthy;
  exec := exec Sample.healthy;
  readdir := readdir Sample.healthy;
  readFile := fun _ path =>
    if JsString.eqb path (str "/Users/tanmay/Documents/notes.txt")
    then inr (str "Error reading file: ENOENT: no such file or directory")
    else inl {| message := str "ENOENT: no such file or directory" |}
|}.

(** A transport that connects, and one that does not. *)
Definition connects : Lifecycle.trace -> option Error := fun _ => None.

Definition refuses : Lifecycle.trace -> option Error :=
  fun _ => Some {| message := str "stdin is closed" |}.

End Scenario.

(* ================================================================== *)
(** * Properties *)

(** ** Strings *)

Section StringFacts.

Lemma eqb_refl (s : jsstring) : JsString.eqb s s = true.
Proof.
  induction s as [|a s IH]; simpl; [reflexivity|].
  now rewrite N.eqb_refl, IH.
Qed.

Lemma eqb_eq (s t : jsstring) : JsString.eqb s t = true <-> s = t.
Proof.
  split.
  - revert t; induction s as [|a s IH]; intros [|b t] H;
      simpl in H; try discriminate; [reflexivity|].
    apply andb_true_iff in H as [Hab Hst].
    apply N.eqb_eq in Hab. apply IH in Hst. now subst.
  - intros ->. apply eqb_refl.
Qed.

Lemma startsWith_spec (s p : jsstring) :
  startsWith s p = true <-> exists t, s = p ++ t.
Proof.
  revert s; induction p as [|b p IH]; intros s; simpl.
  - split; [intros _; now exists s | reflexivity].
  - destruct s as [|a s].
    + split; [discriminate | intros [t Ht]; discriminate].
    + rewrite andb_true_iff, N.eqb_eq, IH. split.
      * intros [-> [t ->]]. now exists t.
      * intros [t Ht]. injection Ht as -> ->. split; [reflexivity|now exists t].
Qed.

Lemma includes_spec (s p : jsstring) :
  includes s p = true <-> exists a b, s = a ++ p ++ b.
Proof.
  induction s as [|c s IH]; simpl.
  - rewrite orb_false_r, startsWith_spec. split.
    + intros [t Ht]. now exists [], t.
    + intros [a [b Hab]]. destruct a; [now exists b|discriminate].
  - rewrite orb_true_iff, startsWith_spec, IH. split.
    + intros [[t Ht] | [a [b Hab]]].
      * now exists [], t.
      * exists (c :: a), b. simpl. now rewrite Hab.
    + intros [[|c' a] [b Hab]].
      * left. now exists b.
      * right. injection Hab as _ ->. now exists a, b.
Qed.

Lemma join_nil_iff (sep : jsstring) (l : list jsstring) :
  (forall x, In x l -> x <> []) -> (join sep l = [] <-> l = []).
Proof.
  intros Hne. split; [|intros ->; reflexivity].
  destruct l as [|x [|y l]]; simpl; intros H; [reflexivity| |].
  - exfalso. apply (Hne x); [now left | assumption].
  - exfalso. apply (Hne x); [now left|].
    apply app_eq_nil in H. tauto.
Qed.

End StringFacts.

(** ** The matcher agrees with the words of the pattern *)

Section RegExpFacts.

Lemma matches_Cat_inv (r1 r2 : regex) (s : jsstring) :
  matches (Cat r1 r2) s ->
  exists s1 s2, s = s1 ++ s2 /\ matches r1 s1 /\ matches r2 s2.
Proof.
  intros H; inversion H; subst. do 2 eexists; eauto.
Qed.

Lemma nullable_spec (r : regex) : nullable r = true <-> matches r [].
Proof.
  induction r; simpl.
  - split; [discriminate | intros H; inversion H].
  - split; [constructor | reflexivity].
  - split; [discriminate | intros H; inversion H].
  - split; [discriminate | intros H; inversion H].
  - rewrite andb_true_iff, IHr1, IHr2. split.
    + intros [H1 H2]. change (@nil N) with (@nil N ++ []). now constructor.
    + intros H. apply matches_Cat_inv in H as (s1 & s2 & Heq & H1 & H2).
      symmetry in Heq. apply app_eq_nil in Heq as [-> ->]. now split.
  - rewrite orb_true_iff, IHr1, IHr2. split.
    + intros [H|H]; [now apply MAltL | now apply MAltR].
    + intros H; inversion H; subst; tauto.
  - split; [constructor | reflexivity].
Qed.

Lemma matches_Star_cons (r : regex) (c : N) (s : jsstring) :
  matches (Star r) (c :: s) ->
  exists s1 s2,
    s = s1 ++ s2 /\ matches r (c :: s1) /\ matches (Star r) s2.
Proof.
  intros H. remember (Star r) as r' eqn:Hr. remember (c :: s) as w eqn:Hw.
  revert s Hw.
  induction H as [| | | | | | |r0 s1 s2 H1 _ H2 IH2]; try discriminate.
  injection Hr as ->. intros s Hw.
  destruct s1 as [|c1 s1]; simpl in Hw.
  - now apply IH2.
  - injection Hw as -> <-. now exists s1, s2.
Qed.

Lemma deriv_spec (c : N) (r : regex) (s : jsstring) :
  matches (deriv c r) s <-> matches r (c :: s).
Proof.
  revert s; induction r as [| | d | |r1 IH1 r2 IH2|r1 IH1 r2 IH2|r1 IH1];
    intros s; simpl.
  - split; intros H; inversion H.
  - split; intros H; inversion H.
  - destruct (N.eqb_spec c d) as [->|Hcd].
    + split; intros H; inversion H; subst; constructor.
    + split; intros H; inversion H; subst; congruence.
  - destruct (isLineTerminator c) eqn:Hc.
    + split; intros H; inversion H; subst; congruence.
    + split; intros H; inversion H; subst; now constructor.
  - assert (Hleft : matches (Cat (deriv c r1) r2) s <->
                    exists s1 s2, s = s1 ++ s2 /\
                      matches r1 (c :: s1) /\ matches r2 s2).
    { split.
      - intros H. apply matches_Cat_inv in H as (s1 & s2 & -> & H1 & H2).
        exists s1, s2. now rewrite <- IH1.
      - intros (s1 & s2 & -> & H1 & H2). constructor; [now apply IH1|assumption]. }
    assert (Hsplit : matches (Cat r1 r2) (c :: s) <->
              (exists s1 s2, s = s1 ++ s2 /\
                 matches r1 (c :: s1) /\ matches r2 s2) \/
              (matches r1 [] /\ matches r2 (c :: s))).
    { split.
      - intros H. apply matches_Cat_inv in H as (s1 & s2 & Heq & H1 & H2).
        destruct s1 as [|c1 s1]; simpl in Heq.
        + right. now subst.
        + injection Heq as <- ->. left. now exists s1, s2.
      - intros [(s1 & s2 & -> & H1 & H2) | [H1 H2]].
        + change (c :: s1 ++ s2) with ((c :: s1) ++ s2). now constructor.
        + change (c :: s) with ([] ++ c :: s). now constructor. }
    rewrite Hsplit. destruct (nullable r1) eqn:Hn.
    + apply nullable_spec in Hn. split.
      * intros H; inversion H; subst.
        -- left. now apply Hleft.
        -- right. split; [assumption | now apply IH2].
      * intros [H | [_ H]].
        -- apply MAltL. now apply Hleft.
        -- apply MAltR. now apply IH2.
    + rewrite Hleft. split; [tauto|].
      intros [H | [H _]]; [assumption|].
      apply nullable_spec in H. congruence.
  - split.
    + intros H; inversion H; subst;
        [apply MAltL; now apply IH1 | apply MAltR; now apply IH2].
    + intros H; inversion H; subst;
        [apply MAltL; now apply IH1 | apply MAltR; now apply IH2].
  - split.
    + intros H. apply matches_Cat_inv in H as (s1 & s2 & -> & H1 & H2).
      change (c :: s1 ++ s2) with ((c :: s1) ++ s2).
      constructor; [now apply IH1 | assumption].
    + intros H. apply matches_Star_cons in H as (s1 & s2 & -> & H1 & H2).
      constructor; [now apply IH1 | assumption].
Qed.

Lemma matchesAtStart_spec (r : regex) (s : jsstring) :
  matchesAtStart r s = true <-> exists p q, s = p ++ q /\ matches r p.
Proof.
  revert r; induction s as [|c s IH]; intros r; simpl.
  - rewrite orb_false_r, nullable_spec. split.
    + intros H. now exists [], [].
    + intros (p & q & Heq & H). symmetry in Heq.
      apply app_eq_nil in Heq as [-> _]. assumption.
  - rewrite orb_true_iff, nullable_spec, IH. split.
    + intros [H | (p & q & -> & H)].
      * now exists [], (c :: s).
      * exists (c :: p), q. split; [reflexivity | now apply deriv_spec].
    + intros ([|c' p] & q & Heq & H).
      * now left.
      * injection Heq as <- ->. right. exists p, q.
        split; [reflexivity | now apply deriv_spec].
Qed.

(** [test] finds a word of the pattern somewhere in the string. *)
Lemma test_spec (r : regex) (s : jsstring) :
  test r s = true <-> exists a p b, s = a ++ p ++ b /\ matches r p.
Proof.
  induction s as [|c s IH]; cbn [test].
  - rewrite orb_false_r, matchesAtStart_spec. split.
    + intros (p & q & Heq & H). now exists [], p, q.
    + intros ([|c a] & p & b & Heq & H); [|discriminate].
      now exists p, b.
  - rewrite orb_true_iff, matchesAtStart_spec, IH. split.
    + intros [(p & q & Heq & H) | (a & p & b & -> & H)].
      * now exists [], p, q.
      * now exists (c :: a), p, b.
    + intros ([|c' a] & p & b & Heq & H).
      * left. now exists p, b.
      * injection Heq as _ ->. right. now exists a, p, b.
Qed.

Lemma matches_Lit (w s : jsstring) : matches (Lit w) s <-> s = w.
Proof.
  revert s; induction w as [|c w IH]; intros s; simpl.
  - split; [intros H; now inversion H | intros ->; constructor].
  - split.
    + intros H. apply matches_Cat_inv in H as (s1 & s2 & -> & H1 & H2).
      inversion H1; subst. apply IH in H2. now subst.
    + intros ->. change (c :: w) with ([c] ++ w).
      constructor; [constructor | now apply IH].
Qed.

Lemma matches_Star_Dot (s : jsstring) :
  matches (Star Dot) s <->
  forallb (fun c => negb (isLineTerminator c)) s = true.
Proof.
  split.
  - intros H. remember (Star Dot) as r eqn:Hr.
    induction H as [| | | | | | |r0 s1 s2 H1 _ H2 IH2]; try discriminate;
      [reflexivity|].
    injection Hr as ->. inversion H1 as [| |c Hc| | | | |]; subst. simpl.
    rewrite Hc. simpl. now apply IH2.
  - induction s as [|c s IH]; simpl; intros H; [constructor|].
    apply andb_true_iff in H as [Hc Hs]. apply negb_true_iff in Hc.
    change (c :: s) with ([c] ++ s).
    constructor; [now constructor | now apply IH].
Qed.

Lemma test_Lit (w s : jsstring) : test (Lit w) s = includes s w.
Proof.
  apply eq_true_iff_eq. rewrite test_spec, includes_spec. split.
  - intros (a & p & b & -> & H). apply matches_Lit in H as ->. now exists a, b.
  - intros (a & b & ->). exists a, w, b. split; [reflexivity | now apply matches_Lit].
Qed.

Lemma test_Alt (r1 r2 : regex) (s : jsstring) :
  test (Alt r1 r2) s = test r1 s || test r2 s.
Proof.
  apply eq_true_iff_eq. rewrite orb_true_iff, !test_spec. split.
  - intros (a & p & b & -> & H). inversion H; subst;
      [left | right]; now exists a, p, b.
  - intros [(a & p & b & -> & H) | (a & p & b & -> & H)];
      exists a, p, b; (split; [reflexivity|]);
      [now apply MAltL | now apply MAltR].
Qed.

End RegExpFacts.

(** X3. A command is a file operation exactly when it holds one of the
    seven words [cp], [mv], [rm], [cat], [touch], [mkdir], [rmdir]
    anywhere, inside a longer word as well, or an [echo] followed on the
    same line by a [>]. *)
Lemma fileOperationPattern_spec (command : jsstring) :
  test fileOperationPattern command = true <->
  includes command (str "cp") = true \/
  includes command (str "mv") = true \/
  includes command (str "rm") = true \/
  includes command (str "cat") = true \/
  (exists a mid b,
      command = a ++ str "echo" ++ mid ++ str ">" ++ b /\
      forallb (fun c => negb (isLineTerminator c)) mid = true) \/
  includes command (str "touch") = true \/
  includes command (str "mkdir") = true \/
  includes command (str "rmdir") = true.
Proof.
  unfold fileOperationPattern.
  rewrite !test_Alt, !test_Lit, !orb_true_iff.
  assert (Hecho :
    test (Cat (Lit (str "echo")) (Cat (Star Dot) (Lit (str ">")))) command
      = true <->
    exists a mid b,
      command = a ++ str "echo" ++ mid ++ str ">" ++ b /\
      forallb (fun c => negb (isLineTerminator c)) mid = true).
  { rewrite test_spec. split.
    - intros (a & p & b & -> & H).
      apply matches_Cat_inv in H as (s1 & s2 & -> & H1 & H2).
      apply matches_Cat_inv in H2 as (s3 & s4 & -> & H3 & H4).
      apply matches_Lit in H1 as ->. apply matches_Lit in H4 as ->.
      apply matches_Star_Dot in H3.
      exists a, s3, b. split; [|assumption].
      now rewrite <- !app_assoc.
    - intros (a & mid & b & -> & Hmid).
      exists a, (str "echo" ++ mid ++ str ">"), b. split.
      + now rewrite <- !app_assoc.
      + constructor; [now apply matches_Lit|].
        constructor; [now apply matches_Star_Dot | now apply matches_Lit]. }
  rewrite Hecho. tauto.
Qed.

(** ** Numbers *)

Section NumberFacts.

Lemma number_le_refl (a : number) : number_le a a.
Proof.
  destruct a as [q| |]; unfold number_le; simpl; try reflexivity.
  apply Qle_bool_iff, Qle_refl.
Qed.

Lemma number_le_total (a b : number) :
  number_leb a b = false -> number_le b a.
Proof.
  unfold number_le.
  destruct a as [p| |], b as [q| |]; simpl; try discriminate;
    try reflexivity.
  intros H. apply Qle_bool_iff.
  destruct (Qlt_le_dec q p) as [Hlt|Hle].
  - now apply Qlt_le_weak.
  - apply Qle_bool_iff in Hle. congruence.
Qed.

Lemma Math_min_le_l (a b : number) : number_le (Math_min a b) a.
Proof.
  unfold Math_min. destruct (number_leb a b) eqn:H.
  - apply number_le_refl.
  - now apply number_le_total.
Qed.

Lemma Math_min_le_r (a b : number) : number_le (Math_min a b) b.
Proof.
  unfold Math_min. destruct (number_leb a b) eqn:H.
  - exact H.
  - apply number_le_refl.
Qed.

Lemma Math_min_cases (a b : number) :
  Math_min a b = a \/ Math_min a b = b.
Proof.
  unfold Math_min. destruct (number_leb a b); [now left | now right].
Qed.

End NumberFacts.

(** ** What a history shows, call after call *)

Arguments str : simpl never.
Arguments logEntry : simpl never.
Arguments JSON_stringify : simpl never.

Section HistoryFacts.

Lemma execCalls_app (h1 h2 : history) :
  execCalls (h1 ++ h2) = execCalls h1 ++ execCalls h2.
Proof. apply filter_app. Qed.

Lemma logSink_app (h1 h2 : history) :
  logSink (h1 ++ h2) = logSink h1 ++ logSink h2.
Proof.
  induction h1 as [|e h1 IH]; [reflexivity|].
  destruct e as [file data [|]| | | |]; cbn [logSink app];
    try assumption.
  destruct (JsString.eqb file (logFile CONFIG)); cbn [app]; now rewrite ?IH.
Qed.

Lemma logAttempts_app (h1 h2 : history) :
  logAttempts (h1 ++ h2) = logAttempts h1 ++ logAttempts h2.
Proof.
  induction h1 as [|e h1 IH]; [reflexivity|].
  destruct e as [file data w| | | |]; cbn [logAttempts app];
    try assumption.
  destruct (JsString.eqb file (logFile CONFIG)); cbn [app]; now rewrite ?IH.
Qed.

Variable os : OS.

Lemma execCalls_logActivityCalls h action details :
  execCalls (logActivityCalls os h action details) = [].
Proof.
  unfold logActivityCalls.
  destruct (appendFile os h _ _); reflexivity.
Qed.

Lemma logAttempts_logActivityCalls h action details :
  logAttempts (logActivityCalls os h action details)
  = [logEntry (toISOString os h) action details].
Proof.
  unfold logActivityCalls.
  destruct (appendFile os h _ _); cbn [logAttempts];
    now rewrite eqb_refl.
Qed.

Lemma logSink_logActivityCalls h action details :
  logSink (logActivityCalls os h action details)
  = match appendFile os h (logFile CONFIG)
            (logEntry (toISOString os h) action details) with
    | None => [logEntry (toISOString os h) action details]
    | Some _ => []
    end.
Proof.
  unfold logActivityCalls.
  destruct (appendFile os h _ _); cbn [logSink];
    now rewrite ?eqb_refl.
Qed.

End HistoryFacts.

(** ** The runs of the handlers *)

Ltac step_m := unfold bind, try_catch, ret, throw, lift; cbn beta iota.

Section Runs.

Variable os : OS.

Lemma logActivity_run action details h :
  logActivity os action details h
  = (Normal tt, h ++ logActivityCalls os h action details).
Proof.
  unfold logActivity, logActivityCalls, now, fs_appendFile, console_error.
  step_m.
  destruct (appendFile os h _ _); [|reflexivity].
  now rewrite <- app_assoc.
Qed.

(** The four ways a run of the execute-command handler can go. *)
Lemma execute_command_run command timeout h :
  let effective := Math_min (requestedTimeout timeout) (timeoutMs CONFIG) in
  let h1 :=
    h ++ logActivityCalls os h (str "COMMAND_REQUESTED")
           (requestedDetails command) in
  let h2 := h1 ++ [Exec command effective (maxOutputSize CONFIG)] in
  let failed (h' : history) (error : Error) :=
    (Normal (textResponse
               (str "Error executing command: " ++ message error)),
     h' ++ logActivityCalls os h' (str "COMMAND_ERROR")
             (errorDetails command error)) in
  execute_command os command timeout h
  = match validateCommand command with
    | Throw error => failed h1 error
    | Normal _ =>
        match exec os h1 command effective (maxOutputSize CONFIG) with
        | inl error => failed h2 error
        | inr out =>
            let result := formatResult (fst out) (snd out) in
            (Normal (textResponse result),
             h2 ++ logActivityCalls os h2 (str "COMMAND_EXECUTED")
                     (executedDetails command result))
        end
    end.
Proof.
  intros effective h1 h2 failed.
  unfold execute_command. step_m.
  rewrite logActivity_run. fold (requestedDetails command). fold h1.
  destruct (validateCommand command) as [ok|error].
  - unfold execPromise. fold (requestedTimeout timeout). fold effective.
    destruct (exec os h1 command effective (maxOutputSize CONFIG))
      as [error|out].
    + fold h2. now rewrite logActivity_run.
    + fold h2. now rewrite !logActivity_run.
  - now rewrite logActivity_run.
Qed.

Lemma list_directory_run path h :
  list_directory os path h
  = if pathAllowed path
    then match readdir os h path with
         | inl error =>
             (Normal (textResponse
                        (str "Error listing directory: " ++ message error)),
              h ++ [Readdir path])
         | inr items =>
             let result := join nl (map formatItem items) in
             (Normal (textResponse
                        (if truthy result then result
                         else str "Directory is empty")),
              h ++ [Readdir path])
         end
    else (Normal (textResponse
                    (str "Error listing directory: "
                       ++ str "Access denied - path outside allowed directories")),
          h).
Proof.
  unfold list_directory, fs_readdir. step_m.
  destruct (pathAllowed path); cbn [negb]; [|reflexivity].
  destruct (readdir os h path); reflexivity.
Qed.

Lemma read_file_run path h :
  read_file os path h
  = if pathAllowed path
    then match readFile os h path with
         | inl error =>
             (Normal (textResponse
                        (str "Error reading file: " ++ message error)),
              h ++ [ReadFile path])
         | inr fileContent =>
             (Normal (textResponse fileContent), h ++ [ReadFile path])
         end
    else (Normal (textResponse
                    (str "Error reading file: "
                       ++ str "Access denied - path outside allowed directories")),
          h).
Proof.
  unfold read_file, fs_readFile. step_m.
  destruct (pathAllowed path); cbn [negb]; [|reflexivity].
  destruct (readFile os h path); reflexivity.
Qed.

End Runs.

(** ** The validator *)

Section ValidatorFacts.

Lemma existsb_false_iff {A} (f : A -> bool) (l : list A) :
  existsb f l = false <-> forall x, In x l -> f x = false.
Proof.
  induction l as [|a l IH]; simpl.
  - split; [intros _ x [] | reflexivity].
  - rewrite orb_false_iff, IH. split.
    + intros [Ha Hl] x [<-|Hx]; [assumption | now apply Hl].
    + intros H. split; [apply H; now left | intros x Hx; apply H; now right].
Qed.

Lemma find_none_iff {A} (f : A -> bool) (l : list A) :
  find f l = None <-> forall x, In x l -> f x = false.
Proof.
  split; [apply find_none|].
  induction l as [|a l IH]; simpl; intros H; [reflexivity|].
  rewrite (H a (or_introl eq_refl)). apply IH.
  intros x Hx. apply H. now right.
Qed.

(** A command that includes a blocked pattern is refused with the first
    such pattern of the configured list. *)
Lemma validateCommand_blocked (command : jsstring) :
  (exists blockedCmd,
      In blockedCmd (blockedCommands CONFIG) /\
      includes command blockedCmd = true) ->
  exists first,
    In first (blockedCommands CONFIG) /\
    includes command first = true /\
    validateCommand command
    = Throw {| message := str "Command contains blocked pattern: "
                            ++ first |}.
Proof.
  intros (b & Hin & Hb). unfold validateCommand.
  destruct (find (fun blockedCmd => includes command blockedCmd)
                 (blockedCommands CONFIG)) as [first|] eqn:Hfind.
  - apply find_some in Hfind as [Hin' Hfirst]. now exists first.
  - apply find_none with (x := b) in Hfind; [congruence | assumption].
Qed.

(** Past the blocked patterns the verdict is that of the directory
    rule. *)
Lemma validateCommand_unblocked (command : jsstring) :
  (forall blockedCmd,
      In blockedCmd (blockedCommands CONFIG) ->
      includes command blockedCmd = false) ->
  validateCommand command
  = if test fileOperationPattern command
       && negb (existsb (fun dir => includes command dir)
                        (allowedDirectories CONFIG))
    then Throw {| message :=
           str "File operations only allowed in permitted directories" |}
    else Normal true.
Proof.
  intros H. unfold validateCommand.
  assert (Hfind : find (fun blockedCmd => includes command blockedCmd)
                       (blockedCommands CONFIG) = None)
    by (apply find_none_iff; exact H).
  cbv beta in Hfind |- *. now rewrite Hfind.
Qed.

End ValidatorFacts.

(* ================================================================== *)
(** * The claims of the specification *)

(** C1. Whenever the command contains one of the configured blocked
    substrings, the execute-command handler answers with a text that
    starts with "Error executing command: Command contains blocked
    pattern", and none of the calls it makes spawns a process. *)
Theorem blocked_command_rejected_without_spawn
    (os : OS) (command : jsstring) (timeout : option number) (h : history) :
  (exists blockedCmd,
      In blockedCmd (blockedCommands CONFIG) /\
      includes command blockedCmd = true) ->
  exists t calls,
    execute_command os command timeout h
      = (Normal (textResponse t), h ++ calls) /\
    startsWith t
      (str "Error executing command: Command contains blocked pattern")
      = true /\
    execCalls calls = [].
Proof.
  intros Hblocked.
  apply validateCommand_blocked in Hblocked as (first & _ & _ & Hv).
  rewrite execute_command_run, Hv. cbn zeta.
  eexists. eexists. split.
  - rewrite <- app_assoc. reflexivity.
  - split.
    + apply startsWith_spec. exists (str ": " ++ first). reflexivity.
    + now rewrite execCalls_app, !execCalls_logActivityCalls.
Qed.

Lemma blocked_command_rejected_without_spawn_witness :
  (exists blockedCmd,
      In blockedCmd (blockedCommands CONFIG) /\
      includes (str "sudo apt install x") blockedCmd = true) /\
  exists t calls,
    execute_command Sample.healthy (str "sudo apt install x") None []
      = (Normal (textResponse t), [] ++ calls) /\
    startsWith t
      (str "Error executing command: Command contains blocked pattern")
      = true /\
    execCalls calls = [].
Proof.
  assert (Hblocked : exists blockedCmd,
             In blockedCmd (blockedCommands CONFIG) /\
             includes (str "sudo apt install x") blockedCmd = true).
  { exists (str "sudo"). split; [simpl; tauto | reflexivity]. }
  split; [exact Hblocked|].
  exact (blocked_command_rejected_without_spawn
           Sample.healthy (str "sudo apt install x") None [] Hblocked).
Defined.

(** C2, as the specification words it, fails: the command
    [rm -rf /tmp/x] matches the file-operation pattern and names no
    allowed directory, yet it is answered with the blocked-pattern
    message, since the blocked patterns are looked at first. *)
Lemma file_operation_message_preempted_by_blocklist :
  test fileOperationPattern (str "rm -rf /tmp/x") = true /\
  existsb (fun dir => includes (str "rm -rf /tmp/x") dir)
          (allowedDirectories CONFIG) = false /\
  fst (execute_command Sample.healthy (str "rm -rf /tmp/x") None [])
  = Normal (textResponse (str
      "Error executing command: Command contains blocked pattern: rm -rf")) /\
  ~ (forall (os : OS) (command : jsstring) (timeout : option number)
            (h : history),
        test fileOperationPattern command = true ->
        (forall dir, In dir (allowedDirectories CONFIG) ->
                     includes command dir = false) ->
        fst (execute_command os command timeout h)
        = Normal (textResponse (str
            "Error executing command: File operations only allowed in permitted directories"))).
Proof.
  split; [reflexivity|]. split; [reflexivity|]. split; [reflexivity|].
  intros H.
  specialize (H Sample.healthy (str "rm -rf /tmp/x") None []).
  assert (Hfile : test fileOperationPattern (str "rm -rf /tmp/x") = true)
    by reflexivity.
  assert (Hdir : forall dir, In dir (allowedDirectories CONFIG) ->
                   includes (str "rm -rf /tmp/x") dir = false).
  { intros dir [<-|[]]. reflexivity. }
  specialize (H Hfile Hdir).
  vm_compute in H. discriminate H.
Qed.

(** C2, amended. Whenever the command holds no blocked substring, matches
    the file-operation pattern and contains none of the allowed
    directories, the execute-command handler answers exactly
    "Error executing command: File operations only allowed in permitted
    directories". *)
Theorem file_operation_outside_allowed_rejected
    (os : OS) (command : jsstring) (timeout : option number) (h : history) :
  (forall blockedCmd, In blockedCmd (blockedCommands CONFIG) ->
                      includes command blockedCmd = false) ->
  test fileOperationPattern command = true ->
  (forall dir, In dir (allowedDirectories CONFIG) ->
               includes command dir = false) ->
  fst (execute_command os command timeout h)
  = Normal (textResponse (str
      "Error executing command: File operations only allowed in permitted directories")).
Proof.
  intros Hblocked Hfile Hdir.
  assert (Hnone : existsb (fun dir => includes command dir)
                           (allowedDirectories CONFIG) = false)
    by now apply existsb_false_iff.
  rewrite execute_command_run, (validateCommand_unblocked _ Hblocked), Hfile.
  now rewrite Hnone.
Qed.

Lemma file_operation_outside_allowed_rejected_witness :
  fst (execute_command Sample.healthy (str "cat /etc/passwd") None [])
  = Normal (textResponse (str
      "Error executing command: File operations only allowed in permitted directories")).
Proof.
  apply (file_operation_outside_allowed_rejected
           Sample.healthy (str "cat /etc/passwd") None []).
  - intros blockedCmd Hin. simpl in Hin.
    destruct Hin as [<-|[<-|[<-|[<-|[]]]]]; reflexivity.
  - reflexivity.
  - intros dir Hin. simpl in Hin. destruct Hin as [<-|[]]. reflexivity.
Defined.

(** C3. Whenever the path starts with none of the allowed directories,
    the list_directory handler answers exactly "Error listing directory:
    Access denied - path outside allowed directories" and makes no call
    at all: the history, and with it the reads of the file system, is
    what it was. *)
Theorem list_directory_outside_allowed_denied
    (os : OS) (path : jsstring) (h : history) :
  (forall dir, In dir (allowedDirectories CONFIG) ->
               startsWith path dir = false) ->
  list_directory os path h
  = (Normal (textResponse (str
       "Error listing directory: Access denied - path outside allowed directories")),
     h) /\
  fsReads (snd (list_directory os path h)) = fsReads h.
Proof.
  intros Hdir.
  assert (Hallowed : pathAllowed path = false)
    by now apply existsb_false_iff.
  rewrite list_directory_run, Hallowed. now split.
Qed.

Lemma list_directory_outside_allowed_denied_witness :
  list_directory Sample.healthy (str "/etc") []
  = (Normal (textResponse (str
       "Error listing directory: Access denied - path outside allowed directories")),
     []) /\
  fsReads (snd (list_directory Sample.healthy (str "/etc") [])) = fsReads [].
Proof.
  apply (list_directory_outside_allowed_denied Sample.healthy (str "/etc") []).
  intros dir Hin. simpl in Hin. destruct Hin as [<-|[]]. reflexivity.
Defined.

(** The processes one run of the execute-command handler spawns: none
    when validation throws, one otherwise. *)
Lemma execute_command_spawns
    (os : OS) (command : jsstring) (timeout : option number) (h : history) :
  exists calls,
    snd (execute_command os command timeout h) = h ++ calls /\
    execCalls calls
    = match validateCommand command with
      | Throw _ => []
      | Normal _ =>
          [Exec command
                (Math_min (requestedTimeout timeout) (timeoutMs CONFIG))
                (maxOutputSize CONFIG)]
      end.
Proof.
  rewrite execute_command_run.
  destruct (validateCommand command) as [ok|error]; cbn zeta.
  - destruct (exec os _ command _ _) as [error|out]; cbn [snd];
      eexists; (split; [rewrite <- !app_assoc; reflexivity|]);
      now rewrite !execCalls_app, !execCalls_logActivityCalls.
  - cbn [snd]. eexists. split; [rewrite <- !app_assoc; reflexivity|].
    now rewrite !execCalls_app, !execCalls_logActivityCalls.
Qed.

(** C4. With a supplied timeout [t] every process the execute-command
    handler spawns gets the timeout [Math.min(t, 30000)], which is one of
    the two values, at most 30000 and at most [t]; a validated command
    spawns exactly one such process.  Without a supplied timeout the
    process gets 30000. *)
Theorem executor_timeout_is_capped
    (os : OS) (command : jsstring) (h : history) :
  (forall t : number,
      let effective := Math_min t (Finite 30000) in
      (effective = t \/ effective = Finite 30000) /\
      number_le effective (Finite 30000) /\
      number_le effective t /\
      exists calls,
        snd (execute_command os command (Some t) h) = h ++ calls /\
        (forall c t' m, In (Exec c t' m) calls -> t' = effective) /\
        (validateCommand command = Normal true ->
         execCalls calls
         = [Exec command effective (maxOutputSize CONFIG)])) /\
  (exists calls,
      snd (execute_command os command None h) = h ++ calls /\
      (forall c t' m, In (Exec c t' m) calls -> t' = Finite 30000) /\
      (validateCommand command = Normal true ->
       execCalls calls
       = [Exec command (Finite 30000) (maxOutputSize CONFIG)])).
Proof.
  assert (Hin : forall calls c t' m eff,
             execCalls calls
             = match validateCommand command with
               | Throw _ => []
               | Normal _ => [Exec command eff (maxOutputSize CONFIG)]
               end ->
             In (Exec c t' m) calls -> t' = eff).
  { intros calls c t' m eff Hcalls Hin.
    assert (Hin' : In (Exec c t' m) (execCalls calls))
      by (apply filter_In; now split).
    rewrite Hcalls in Hin'.
    destruct (validateCommand command); simpl in Hin'; [|contradiction].
    destruct Hin' as [Heq|[]]. now injection Heq. }
  split.
  - intros t effective.
    split; [apply Math_min_cases|].
    split; [apply Math_min_le_r|].
    split; [apply Math_min_le_l|].
    destruct (execute_command_spawns os command (Some t) h)
      as (calls & Hsnd & Hcalls).
    exists calls. split; [exact Hsnd|]. split.
    + intros c t' m. now apply Hin.
    + intros Hv. now rewrite Hcalls, Hv.
  - destruct (execute_command_spawns os command None h)
      as (calls & Hsnd & Hcalls).
    exists calls. split; [exact Hsnd|]. split.
    + intros c t' m. now apply Hin.
    + intros Hv. now rewrite Hcalls, Hv.
Qed.

Lemma executor_timeout_is_capped_witness :
  execCalls
    (snd (execute_command Sample.healthy (str "echo hello")
            (Some (Finite 60000)) []))
  = [Exec (str "echo hello") (Finite 30000) 1048576] /\
  execCalls
    (snd (execute_command Sample.healthy (str "echo hello")
            (Some (Finite 500)) []))
  = [Exec (str "echo hello") (Finite 500) 1048576] /\
  execCalls
    (snd (execute_command Sample.healthy (str "echo hello") None []))
  = [Exec (str "echo hello") (Finite 30000) 1048576].
Proof.
  destruct (executor_timeout_is_capped Sample.healthy (str "echo hello") [])
    as [Hsome Hnone].
  destruct (Hsome (Finite 60000))
    as (_ & _ & _ & calls1 & Hsnd1 & _ & Hcalls1).
  destruct (Hsome (Finite 500))
    as (_ & _ & _ & calls2 & Hsnd2 & _ & Hcalls2).
  destruct Hnone as (calls3 & Hsnd3 & _ & Hcalls3).
  rewrite Hsnd1, Hsnd2, Hsnd3.
  split; [exact (Hcalls1 eq_refl)|].
  split; [exact (Hcalls2 eq_refl) | exact (Hcalls3 eq_refl)].
Defined.

(** C5. A command with no blocked substring that does not match the
    file-operation pattern passes validation whatever directories it
    names, and the handler spawns it and answers with the formatted
    output; when the shell answers [echo hello] with the line "hello" on
    standard output the response text is "Standard Output:\nhello\n\n". *)
Theorem unclassified_command_is_executed :
  (forall (os : OS) (command : jsstring) (timeout : option number)
          (h : history),
      (forall blockedCmd, In blockedCmd (blockedCommands CONFIG) ->
                          includes command blockedCmd = false) ->
      test fileOperationPattern command = false ->
      validateCommand command = Normal true /\
      (exists calls,
          snd (execute_command os command timeout h) = h ++ calls /\
          execCalls calls
          = [Exec command
                  (Math_min (requestedTimeout timeout) (timeoutMs CONFIG))
                  (maxOutputSize CONFIG)]) /\
      (forall stdout stderr,
          exec os
            (h ++ logActivityCalls os h (str "COMMAND_REQUESTED")
                    (requestedDetails command))
            command
            (Math_min (requestedTimeout timeout) (timeoutMs CONFIG))
            (maxOutputSize CONFIG)
          = inr (stdout, stderr) ->
          fst (execute_command os command timeout h)
          = Normal (textResponse (formatResult stdout stderr)))) /\
  (forall (os : OS) (timeout : option number) (h : history),
      exec os
        (h ++ logActivityCalls os h (str "COMMAND_REQUESTED")
                (requestedDetails (str "echo hello")))
        (str "echo hello")
        (Math_min (requestedTimeout timeout) (timeoutMs CONFIG))
        (maxOutputSize CONFIG)
      = inr (str "hello" ++ nl, []) ->
      fst (execute_command os (str "echo hello") timeout h)
      = Normal (textResponse
                  (str "Standard Output:" ++ nl ++ str "hello" ++ nl ++ nl))).
Proof.
  assert (Hgeneral :
    forall (os : OS) (command : jsstring) (timeout : option number)
           (h : history),
      (forall blockedCmd, In blockedCmd (blockedCommands CONFIG) ->
                          includes command blockedCmd = false) ->
      test fileOperationPattern command = false ->
      validateCommand command = Normal true /\
      (exists calls,
          snd (execute_command os command timeout h) = h ++ calls /\
          execCalls calls
          = [Exec command
                  (Math_min (requestedTimeout timeout) (timeoutMs CONFIG))
                  (maxOutputSize CONFIG)]) /\
      (forall stdout stderr,
          exec os
            (h ++ logActivityCalls os h (str "COMMAND_REQUESTED")
                    (requestedDetails command))
            command
            (Math_min (requestedTimeout timeout) (timeoutMs CONFIG))
            (maxOutputSize CONFIG)
          = inr (stdout, stderr) ->
          fst (execute_command os command timeout h)
          = Normal (textResponse (formatResult stdout stderr)))).
  { intros os command timeout h Hblocked Hfile.
    assert (Hv : validateCommand command = Normal true).
    { rewrite (validateCommand_unblocked _ Hblocked), Hfile. reflexivity. }
    split; [exact Hv|]. split.
    - destruct (execute_command_spawns os command timeout h)
        as (calls & Hsnd & Hcalls).
      exists calls. split; [exact Hsnd|]. now rewrite Hcalls, Hv.
    - intros stdout stderr Hexec.
      rewrite execute_command_run, Hv. cbn zeta. now rewrite Hexec. }
  split; [exact Hgeneral|].
  intros os timeout h Hexec.
  assert (Hblocked : forall blockedCmd,
             In blockedCmd (blockedCommands CONFIG) ->
             includes (str "echo hello") blockedCmd = false).
  { intros blockedCmd Hin. simpl in Hin.
    destruct Hin as [<-|[<-|[<-|[<-|[]]]]]; reflexivity. }
  destruct (Hgeneral os (str "echo hello") timeout h Hblocked eq_refl)
    as (_ & _ & Hformat).
  now rewrite (Hformat _ _ Hexec).
Qed.

Lemma unclassified_command_is_executed_witness :
  fst (execute_command Sample.healthy (str "echo hello") None [])
  = Normal (textResponse
              (str "Standard Output:" ++ nl ++ str "hello" ++ nl ++ nl)) /\
  validateCommand (str "ls /Users/tanmay/Documents") = Normal true /\
  validateCommand (str "ls /etc") = Normal true.
Proof.
  destruct unclassified_command_is_executed as [Hgeneral Hecho].
  split; [apply (Hecho Sample.healthy None []); reflexivity|].
  split.
  - apply (Hgeneral Sample.healthy (str "ls /Users/tanmay/Documents") None []).
    + intros blockedCmd Hin. simpl in Hin.
      destruct Hin as [<-|[<-|[<-|[<-|[]]]]]; reflexivity.
    + reflexivity.
  - apply (Hgeneral Sample.healthy (str "ls /etc") None []).
    + intros blockedCmd Hin. simpl in Hin.
      destruct Hin as [<-|[<-|[<-|[<-|[]]]]]; reflexivity.
    + reflexivity.
Defined.

(** When every write to the log file succeeds, what the logger hands
    over is what reaches the sink. *)
Lemma logSink_logActivityCalls_written
    (os : OS) (h : history) (action : jsstring) (details : object) :
  (forall h' data, appendFile os h' (logFile CONFIG) data = None) ->
  logSink (logActivityCalls os h action details)
  = [logEntry (toISOString os h) action details].
Proof.
  intros Hok. now rewrite logSink_logActivityCalls, Hok.
Qed.

(** The two ways a run of the execute-command handler ends, with the
    records it hands to the logger: the request, then either the error
    or the execution. *)
Lemma execute_command_outcome
    (os : OS) (command : jsstring) (timeout : option number) (h : history) :
  exists calls ts1 ts2,
    snd (execute_command os command timeout h) = h ++ calls /\
    ((forall h' data, appendFile os h' (logFile CONFIG) data = None) ->
     logSink calls = logAttempts calls) /\
    ((exists error,
         fst (execute_command os command timeout h)
         = Normal (textResponse
                     (str "Error executing command: " ++ message error)) /\
         logAttempts calls
         = [logEntry ts1 (str "COMMAND_REQUESTED") (requestedDetails command);
            logEntry ts2 (str "COMMAND_ERROR") (errorDetails command error)])
     \/
     (exists stdout stderr,
         exec os
           (h ++ logActivityCalls os h (str "COMMAND_REQUESTED")
                   (requestedDetails command))
           command
           (Math_min (requestedTimeout timeout) (timeoutMs CONFIG))
           (maxOutputSize CONFIG)
         = inr (stdout, stderr) /\
         fst (execute_command os command timeout h)
         = Normal (textResponse (formatResult stdout stderr)) /\
         logAttempts calls
         = [logEntry ts1 (str "COMMAND_REQUESTED") (requestedDetails command);
            logEntry ts2 (str "COMMAND_EXECUTED")
              (executedDetails command (formatResult stdout stderr))])).
Proof.
  rewrite execute_command_run.
  destruct (validateCommand command) as [ok|error]; cbn zeta.
  - destruct (exec os _ command _ _) as [error|[stdout stderr]] eqn:Hexec;
      cbn [fst snd];
      eexists; eexists; eexists;
      (split; [rewrite <- !app_assoc; reflexivity|]);
      (split;
       [intros Hok;
        rewrite !logSink_app, !logAttempts_app,
          !logAttempts_logActivityCalls,
          !(logSink_logActivityCalls_written _ _ _ _ Hok);
        reflexivity|]).
    + left. exists error. split; [reflexivity|].
      rewrite !logAttempts_app, !logAttempts_logActivityCalls. reflexivity.
    + right. exists stdout, stderr. split; [reflexivity|].
      split; [reflexivity|].
      rewrite !logAttempts_app, !logAttempts_logActivityCalls. reflexivity.
  - cbn [fst snd]. eexists; eexists; eexists.
    split; [rewrite <- !app_assoc; reflexivity|].
    split.
    + intros Hok.
      rewrite !logSink_app, !logAttempts_app, !logAttempts_logActivityCalls,
        !(logSink_logActivityCalls_written _ _ _ _ Hok).
      reflexivity.
    + left. exists error. split; [reflexivity|].
      rewrite !logAttempts_app, !logAttempts_logActivityCalls. reflexivity.
Qed.

(** C6, as the specification words it, fails: when the log file cannot be
    written the execute-command handler swallows both failures and the
    sink holds no new record. *)
Lemma unwritable_log_gains_no_record :
  fst (execute_command Sample.readOnlyLog (str "echo hello") None [])
  = Normal (textResponse
              (str "Standard Output:" ++ nl ++ str "hello" ++ nl ++ nl)) /\
  length (logAttempts
            (snd (execute_command Sample.readOnlyLog (str "echo hello")
                    None []))) = 2 /\
  logSink (snd (execute_command Sample.readOnlyLog (str "echo hello") None []))
  = logSink [] /\
  ~ (forall (os : OS) (command : jsstring) (timeout : option number)
            (h : history),
        exists requested outcome,
          logSink (snd (execute_command os command timeout h))
          = logSink h ++ [requested; outcome]).
Proof.
  split; [reflexivity|]. split; [reflexivity|]. split; [reflexivity|].
  intros H.
  destruct (H Sample.readOnlyLog (str "echo hello") None [])
    as (requested & outcome & Hsink).
  vm_compute in Hsink. discriminate Hsink.
Qed.

(** C6, amended. Every execute-command call hands the logger exactly two
    records, the first tagged COMMAND_REQUESTED and the second tagged
    either COMMAND_EXECUTED or COMMAND_ERROR, and when the writes to the
    log file succeed these two records are what the sink gains; a
    list_directory call and a read_file call hand the logger nothing and
    leave the sink as it was. *)
Theorem execute_command_logs_request_then_outcome :
  (forall (os : OS) (command : jsstring) (timeout : option number)
          (h : history),
      exists calls ts1 ts2 tag details,
        snd (execute_command os command timeout h) = h ++ calls /\
        logAttempts calls
        = [logEntry ts1 (str "COMMAND_REQUESTED")
             [(str "command", JString command)];
           logEntry ts2 tag details] /\
        (tag = str "COMMAND_EXECUTED" \/ tag = str "COMMAND_ERROR") /\
        ((forall h' data, appendFile os h' (logFile CONFIG) data = None) ->
         logSink (snd (execute_command os command timeout h))
         = logSink h ++
           [logEntry ts1 (str "COMMAND_REQUESTED")
              [(str "command", JString command)];
            logEntry ts2 tag details])) /\
  (forall (os : OS) (path : jsstring) (h : history),
      logAttempts (snd (list_directory os path h)) = logAttempts h /\
      logSink (snd (list_directory os path h)) = logSink h) /\
  (forall (os : OS) (path : jsstring) (h : history),
      logAttempts (snd (read_file os path h)) = logAttempts h /\
      logSink (snd (read_file os path h)) = logSink h).
Proof.
  split; [|split].
  - intros os command timeout h.
    destruct (execute_command_outcome os command timeout h)
      as (calls & ts1 & ts2 & Hsnd & Hsink & Hcases).
    destruct Hcases as [(error & _ & Hlog) | (stdout & stderr & _ & _ & Hlog)].
    + exists calls, ts1, ts2, (str "COMMAND_ERROR"),
        (errorDetails command error).
      split; [exact Hsnd|]. split; [exact Hlog|]. split; [now right|].
      intros Hok. rewrite Hsnd, logSink_app, (Hsink Hok), Hlog. reflexivity.
    + exists calls, ts1, ts2, (str "COMMAND_EXECUTED"),
        (executedDetails command (formatResult stdout stderr)).
      split; [exact Hsnd|]. split; [exact Hlog|]. split; [now left|].
      intros Hok. rewrite Hsnd, logSink_app, (Hsink Hok), Hlog. reflexivity.
  - intros os path h. rewrite list_directory_run.
    destruct (pathAllowed path); [|now split].
    destruct (readdir os h path); cbn [snd];
      rewrite logAttempts_app, logSink_app; cbn [logAttempts logSink];
      now rewrite !app_nil_r.
  - intros os path h. rewrite read_file_run.
    destruct (pathAllowed path); [|now split].
    destruct (readFile os h path); cbn [snd];
      rewrite logAttempts_app, logSink_app; cbn [logAttempts logSink];
      now rewrite !app_nil_r.
Qed.

Lemma execute_command_logs_request_then_outcome_witness :
  exists ts1 ts2 tag details,
    (tag = str "COMMAND_EXECUTED" \/ tag = str "COMMAND_ERROR") /\
    logSink (snd (execute_command Sample.healthy (str "echo hello") None []))
    = logSink [] ++
      [logEntry ts1 (str "COMMAND_REQUESTED")
         [(str "command", JString (str "echo hello"))];
       logEntry ts2 tag details].
Proof.
  destruct execute_command_logs_request_then_outcome as [Hexecute _].
  destruct (Hexecute Sample.healthy (str "echo hello") None [])
    as (calls & ts1 & ts2 & tag & details & _ & _ & Htag & Hsink).
  exists ts1, ts2, tag, details. split; [exact Htag|].
  apply Hsink. intros h' data. reflexivity.
Defined.

(** C7. For every action and details [logActivity] completes normally;
    when the append fails the only calls it made are the failed append
    and the report of the error on the diagnostic channel, and the sink
    is untouched.  The three handlers, which call it, complete normally
    with a response whatever the log file does. *)
Theorem log_write_failure_is_swallowed :
  (forall (os : OS) (action : jsstring) (details : object) (h : history),
      exists calls,
        logActivity os action details h = (Normal tt, h ++ calls) /\
        (forall error,
            appendFile os h (logFile CONFIG)
              (logEntry (toISOString os h) action details) = Some error ->
            calls
            = [AppendFile (logFile CONFIG)
                 (logEntry (toISOString os h) action details) false;
               ConsoleError (str "Failed to write to log file:") error] /\
            logSink (h ++ calls) = logSink h)) /\
  (forall (os : OS) (command : jsstring) (timeout : option number)
          (h : history),
      exists response,
        fst (execute_command os command timeout h) = Normal response) /\
  (forall (os : OS) (path : jsstring) (h : history),
      (exists response, fst (list_directory os path h) = Normal response) /\
      (exists response, fst (read_file os path h) = Normal response)).
Proof.
  split; [|split].
  - intros os action details h.
    exists (logActivityCalls os h action details).
    split; [apply logActivity_run|].
    intros error Hfail. unfold logActivityCalls. rewrite Hfail.
    split; [reflexivity|].
    rewrite logSink_app. cbn [logSink]. apply app_nil_r.
  - intros os command timeout h. rewrite execute_command_run.
    destruct (validateCommand command); cbn zeta;
      [destruct (exec os _ command _ _)|]; eexists; reflexivity.
  - intros os path h. rewrite list_directory_run, read_file_run.
    split; destruct (pathAllowed path);
      try destruct (readdir os h path); try destruct (readFile os h path);
      eexists; reflexivity.
Qed.

Lemma log_write_failure_is_swallowed_witness :
  exists calls,
    logActivity Sample.readOnlyLog (str "SERVER_START")
      [(str "version", JString (str "1.1.0"))] []
    = (Normal tt, [] ++ calls) /\
    diagnostics calls
    = [ConsoleError (str "Failed to write to log file:")
         {| message := str "EACCES: permission denied" |}] /\
    logSink ([] ++ calls) = logSink [].
Proof.
  destruct log_write_failure_is_swallowed as [Hlogger _].
  destruct (Hlogger Sample.readOnlyLog (str "SERVER_START")
              [(str "version", JString (str "1.1.0"))] [])
    as (calls & Hrun & Hfail).
  destruct (Hfail {| message := str "EACCES: permission denied" |} eq_refl)
    as [Hcalls Hsink].
  exists calls. split; [exact Hrun|]. split; [|exact Hsink].
  rewrite Hcalls. reflexivity.
Defined.

(** ** The text of a successful execution *)

Section FormatFacts.

Lemma formatResult_sections (stdout stderr : jsstring) :
  formatResult stdout stderr
  = match stdout, stderr with
    | [], [] => str "Command executed successfully with no output."
    | _, _ =>
        outputSection (str "Standard Output:") stdout
          ++ outputSection (str "Standard Error:") stderr
    end.
Proof.
  unfold formatResult, outputSection.
  destruct stdout as [|c stdout], stderr as [|d stderr];
    cbn [truthy negb app]; try reflexivity.
  now rewrite app_nil_r.
Qed.

Lemma formatResult_length (stdout stderr : jsstring) :
  length stdout + length stderr < length (formatResult stdout stderr).
Proof.
  rewrite formatResult_sections. unfold outputSection.
  destruct stdout as [|c stdout], stderr as [|d stderr];
    rewrite ?length_app; unfold str, nl; simpl; rewrite ?length_app;
    simpl; lia.
Qed.

Lemma formatItem_not_empty (item : Dirent) : formatItem item <> [].
Proof.
  unfold formatItem. destruct (isDirectory item); discriminate.
Qed.

Lemma listing_empty_iff (items : list Dirent) :
  join nl (map formatItem items) = [] <-> items = [].
Proof.
  rewrite join_nil_iff.
  - split; [apply map_eq_nil | now intros ->].
  - intros x Hx. apply in_map_iff in Hx as (item & <- & _).
    apply formatItem_not_empty.
Qed.

End FormatFacts.

(** C8. When a validated command runs to completion with the captured
    texts [stdout] and [stderr], the response text is the fixed message
    "Command executed successfully with no output." if both are empty,
    and otherwise the "Standard Output:" section followed by the
    "Standard Error:" section, each present exactly when its text is not
    empty. *)
Theorem completed_command_text
    (os : OS) (command : jsstring) (timeout : option number) (h : history)
    (stdout stderr : jsstring) :
  validateCommand command = Normal true ->
  exec os
    (h ++ logActivityCalls os h (str "COMMAND_REQUESTED")
            (requestedDetails command))
    command
    (Math_min (requestedTimeout timeout) (timeoutMs CONFIG))
    (maxOutputSize CONFIG)
  = inr (stdout, stderr) ->
  exists t,
    fst (execute_command os command timeout h) = Normal (textResponse t) /\
    (stdout = [] -> stderr = [] ->
     t = str "Command executed successfully with no output.") /\
    (stdout <> [] \/ stderr <> [] ->
     t = (match stdout with
          | [] => []
          | _ :: _ => str "Standard Output:" ++ nl ++ stdout ++ nl
          end)
         ++ (match stderr with
             | [] => []
             | _ :: _ => str "Standard Error:" ++ nl ++ stderr ++ nl
             end)).
Proof.
  intros Hv Hexec. exists (formatResult stdout stderr).
  split.
  - rewrite execute_command_run, Hv. cbn zeta. now rewrite Hexec.
  - rewrite formatResult_sections. unfold outputSection. split.
    + now intros -> ->.
    + destruct stdout, stderr; try reflexivity. intros [H|H]; congruence.
Qed.

Lemma completed_command_text_witness :
  exists t,
    fst (execute_command Sample.healthy (str "echo hello") None [])
    = Normal (textResponse t) /\
    t = str "Standard Output:" ++ nl ++ (str "hello" ++ nl) ++ nl.
Proof.
  destruct (completed_command_text Sample.healthy (str "echo hello") None []
              (stdout := str "hello" ++ nl) (stderr := [])
              eq_refl eq_refl)
    as (t & Hrun & _ & Hsections).
  exists t. split; [exact Hrun|].
  rewrite Hsections; [apply app_nil_r | left; discriminate].
Defined.

(** C9. When the path is allowed and the listing succeeds, the text of
    the list_directory response is "Directory is empty" for an empty
    listing and otherwise the entries in listing order, one per line,
    each "[DIR] " or "[FILE] " followed by its name. *)
Theorem directory_listing_text
    (os : OS) (path : jsstring) (h : history) (items : list Dirent) :
  (exists dir,
      In dir (allowedDirectories CONFIG) /\ startsWith path dir = true) ->
  readdir os h path = inr items ->
  exists t,
    list_directory os path h
    = (Normal (textResponse t), h ++ [Readdir path]) /\
    (items = [] -> t = str "Directory is empty") /\
    (items <> [] ->
     t = join nl
           (map (fun item =>
                   (if isDirectory item then str "[DIR] " else str "[FILE] ")
                     ++ name item)
                items)).
Proof.
  intros Hallowed Hitems.
  assert (Hpath : pathAllowed path = true)
    by (apply existsb_exists; exact Hallowed).
  rewrite list_directory_run, Hpath, Hitems. cbn zeta.
  eexists. split; [reflexivity|].
  destruct (join nl (map formatItem items)) as [|c result] eqn:Hjoin.
  - apply listing_empty_iff in Hjoin. cbn [truthy]. split.
    + reflexivity.
    + intros Hne. contradiction.
  - cbn [truthy]. split.
    + intros ->. discriminate Hjoin.
    + intros _. exact (eq_sym Hjoin).
Qed.

Lemma directory_listing_text_witness :
  (exists t,
      list_directory Sample.healthy (str "/Users/tanmay/Documents") []
      = (Normal (textResponse t),
         [] ++ [Readdir (str "/Users/tanmay/Documents")]) /\
      t = str "[DIR] notes" ++ nl ++ str "[FILE] todo.txt") /\
  (exists t,
      list_directory Sample.healthy (str "/Users/tanmay/Documents/empty") []
      = (Normal (textResponse t),
         [] ++ [Readdir (str "/Users/tanmay/Documents/empty")]) /\
      t = str "Directory is empty").
Proof.
  assert (Hallowed : forall path,
             startsWith path (str "/Users/tanmay/Documents") = true ->
             exists dir,
               In dir (allowedDirectories CONFIG) /\
               startsWith path dir = true).
  { intros path Hpath. exists (str "/Users/tanmay/Documents").
    split; [now left | exact Hpath]. }
  split.
  - destruct (directory_listing_text Sample.healthy
                (str "/Users/tanmay/Documents") []
                (items := [ {| name := str "notes"; isDirectory := true |};
                            {| name := str "todo.txt";
                               isDirectory := false |} ])
                (Hallowed (str "/Users/tanmay/Documents") eq_refl) eq_refl)
      as (t & Hrun & _ & Hlisting).
    exists t. split; [exact Hrun|].
    rewrite Hlisting; [reflexivity | discriminate].
  - destruct (directory_listing_text Sample.healthy
                (str "/Users/tanmay/Documents/empty") []
                (items := [])
                (Hallowed (str "/Users/tanmay/Documents/empty") eq_refl)
                eq_refl)
      as (t & Hrun & Hempty & _).
    exists t. split; [exact Hrun | now apply Hempty].
Defined.

(** C10. A run of the execute-command handler hands the logger a
    COMMAND_EXECUTED record only when it answers with the formatted
    result, and the outputSize of that record is the length of the
    response text: it is positive, and larger than the captured standard
    output and standard error together.  Every other run logs the request
    and a COMMAND_ERROR record. *)
Theorem executed_record_output_size
    (os : OS) (command : jsstring) (timeout : option number) (h : history) :
  exists calls ts1 ts2,
    snd (execute_command os command timeout h) = h ++ calls /\
    ((exists error,
         logAttempts calls
         = [logEntry ts1 (str "COMMAND_REQUESTED")
              [(str "command", JString command)];
            logEntry ts2 (str "COMMAND_ERROR")
              [(str "command", JString command);
               (str "error", JString (message error))]])
     \/
     (exists stdout stderr t,
         exec os
           (h ++ logActivityCalls os h (str "COMMAND_REQUESTED")
                   (requestedDetails command))
           command
           (Math_min (requestedTimeout timeout) (timeoutMs CONFIG))
           (maxOutputSize CONFIG)
         = inr (stdout, stderr) /\
         fst (execute_command os command timeout h)
         = Normal (textResponse t) /\
         logAttempts calls
         = [logEntry ts1 (str "COMMAND_REQUESTED")
              [(str "command", JString command)];
            logEntry ts2 (str "COMMAND_EXECUTED")
              [(str "command", JString command);
               (str "success", JBool true);
               (str "outputSize", JNumber (N.of_nat (length t)))]] /\
         0 < length t /\
         length stdout + length stderr < length t)).
Proof.
  destruct (execute_command_outcome os command timeout h)
    as (calls & ts1 & ts2 & Hsnd & _ & Hcases).
  exists calls, ts1, ts2. split; [exact Hsnd|].
  destruct Hcases
    as [(error & _ & Hlog) | (stdout & stderr & Hexec & Hrun & Hlog)].
  - left. now exists error.
  - right. exists stdout, stderr, (formatResult stdout stderr).
    split; [exact Hexec|]. split; [exact Hrun|]. split; [exact Hlog|].
    pose proof (formatResult_length stdout stderr). lia.
Qed.

(* ================================================================== *)
(** * Further properties of the code *)

(** ** The validator and the path check *)

Lemma find_first {A} (f : A -> bool) (l : list A) (x : A) :
  find f l = Some x ->
  exists pre post,
    l = pre ++ x :: post /\
    (forall y, In y pre -> f y = false) /\
    f x = true.
Proof.
  induction l as [|a l IH]; simpl; [discriminate|].
  destruct (f a) eqn:Hfa.
  - intros Heq. injection Heq as <-. exists [], l.
    split; [reflexivity|]. split; [intros y []|assumption].
  - intros Hfind. destruct (IH Hfind) as (pre & post & -> & Hpre & Hx).
    exists (a :: pre), post. split; [reflexivity|]. split; [|assumption].
    intros y [<-|Hy]; [assumption | now apply Hpre].
Qed.

(** X1. [validateCommand] returns [true] exactly for the commands that
    include no blocked pattern and either do not match the file-operation
    pattern or include an allowed directory somewhere; it never returns
    [false] (every refusal is a throw). *)
Theorem validateCommand_accepts_iff (command : jsstring) :
  (validateCommand command = Normal true <->
   (forall blockedCmd, In blockedCmd (blockedCommands CONFIG) ->
                       includes command blockedCmd = false) /\
   (test fileOperationPattern command = false \/
    exists dir,
      In dir (allowedDirectories CONFIG) /\ includes command dir = true)) /\
  validateCommand command <> Normal false.
Proof.
  unfold validateCommand.
  destruct (find (fun blockedCmd => includes command blockedCmd)
                 (blockedCommands CONFIG)) as [first|] eqn:Hfind.
  - split; [|discriminate]. split; [discriminate|].
    intros [Hnone _]. apply find_some in Hfind as [Hin Hfirst].
    rewrite (Hnone first Hin) in Hfirst. discriminate.
  - pose proof (find_none _ _ Hfind) as Hnone. cbv beta in Hnone.
    destruct (test fileOperationPattern command) eqn:Hfile;
      destruct (existsb (fun dir => includes command dir)
                        (allowedDirectories CONFIG)) eqn:Hdir;
      cbn [andb negb]; (split; [|discriminate]).
    + split; [intros _|reflexivity]. split; [exact Hnone|].
      right. apply existsb_exists in Hdir. exact Hdir.
    + split; [discriminate|].
      intros [_ [Habs|(dir & Hin & Hinc)]]; [discriminate|].
      pose proof (proj1 (existsb_false_iff _ _) Hdir dir Hin) as Hout.
      cbv beta in Hout. congruence.
    + split; [intros _|reflexivity]. split; [exact Hnone | now left].
    + split; [intros _|reflexivity]. split; [exact Hnone | now left].
Qed.

Lemma validateCommand_accepts_iff_witness :
  validateCommand
    (str "cat /etc/passwd # /Users/tanmay/Documents") = Normal true.
Proof.
  apply (proj1 (validateCommand_accepts_iff
                  (str "cat /etc/passwd # /Users/tanmay/Documents"))).
  split.
  - intros blockedCmd Hin. simpl in Hin.
    destruct Hin as [<-|[<-|[<-|[<-|[]]]]]; reflexivity.
  - right. exists (str "/Users/tanmay/Documents").
    split; [now left | reflexivity].
Defined.

(** X2. When the command includes blocked patterns, the refusal names the
    one that comes first in the configured list (not the one that comes
    first in the command): every pattern configured before it is absent
    from the command. *)
Theorem validateCommand_names_first_configured (command : jsstring) :
  (exists blockedCmd,
      In blockedCmd (blockedCommands CONFIG) /\
      includes command blockedCmd = true) ->
  exists before named after,
    blockedCommands CONFIG = before ++ named :: after /\
    (forall earlier, In earlier before ->
                     includes command earlier = false) /\
    includes command named = true /\
    validateCommand command
    = Throw {| message := str "Command contains blocked pattern: "
                            ++ named |}.
Proof.
  intros (b & Hin & Hb). unfold validateCommand.
  destruct (find (fun blockedCmd => includes command blockedCmd)
                 (blockedCommands CONFIG)) as [named|] eqn:Hfind.
  - destruct (find_first _ _ Hfind) as (before & after & Hl & Hpre & Hx).
    exists before, named, after. now repeat split.
  - apply find_none with (x := b) in Hfind; [congruence | assumption].
Qed.

Lemma validateCommand_names_first_configured_witness :
  validateCommand (str "sudo rm -rf /")
  = Throw {| message := str "Command contains blocked pattern: rm -rf" |}.
Proof.
  destruct (validateCommand_names_first_configured (str "sudo rm -rf /"))
    as (before & named & after & Hl & Hbefore & Hnamed & Hv).
  - exists (str "sudo"). split; [simpl; tauto | reflexivity].
  - rewrite Hv. f_equal. f_equal.
    destruct before as [|x before].
    + injection Hl as <- _. reflexivity.
    + injection Hl as <- _.
      specialize (Hbefore (str "rm -rf") (or_introl eq_refl)).
      discriminate Hbefore.
Defined.

(** X4. The path check of [list_directory] and [read_file] is a plain
    prefix test: a path passes exactly when it is an allowed directory
    followed by any text at all (a [..] segment, or the rest of a longer
    sibling name), and a path that passes is handed to the file system as
    it was given. *)
Theorem path_check_is_plain_prefix (os : OS) (path : jsstring) (h : history) :
  (pathAllowed path = true <->
   exists dir rest, In dir (allowedDirectories CONFIG) /\ path = dir ++ rest) /\
  (pathAllowed path = true ->
   snd (list_directory os path h) = h ++ [Readdir path] /\
   snd (read_file os path h) = h ++ [ReadFile path]).
Proof.
  split.
  - unfold pathAllowed. rewrite existsb_exists. split.
    + intros (dir & Hin & Hpre). apply startsWith_spec in Hpre as [rest ->].
      now exists dir, rest.
    + intros (dir & rest & Hin & ->). exists dir.
      split; [assumption|]. apply startsWith_spec. now exists rest.
  - intros Hallowed. rewrite list_directory_run, read_file_run, Hallowed.
    split; [destruct (readdir os h path) | destruct (readFile os h path)];
      reflexivity.
Qed.

Lemma path_check_is_plain_prefix_witness :
  pathAllowed (str "/Users/tanmay/Documents/../../../etc/passwd") = true /\
  pathAllowed (str "/Users/tanmay/DocumentsOfSomeoneElse/x") = true /\
  snd (read_file Sample.healthy
         (str "/Users/tanmay/Documents/../../../etc/passwd") [])
  = [] ++ [ReadFile (str "/Users/tanmay/Documents/../../../etc/passwd")].
Proof.
  assert (Hescape :
    pathAllowed (str "/Users/tanmay/Documents/../../../etc/passwd") = true).
  { apply (proj1 (path_check_is_plain_prefix Sample.healthy
                    (str "/Users/tanmay/Documents/../../../etc/passwd") [])).
    exists (str "/Users/tanmay/Documents"), (str "/../../../etc/passwd").
    split; [now left | reflexivity]. }
  split; [exact Hescape|]. split.
  - apply (proj1 (path_check_is_plain_prefix Sample.healthy
                    (str "/Users/tanmay/DocumentsOfSomeoneElse/x") [])).
    exists (str "/Users/tanmay/Documents"), (str "OfSomeoneElse/x").
    split; [now left | reflexivity].
  - apply (proj2 (path_check_is_plain_prefix Sample.healthy
                    (str "/Users/tanmay/Documents/../../../etc/passwd") [])
                 Hescape).
Defined.

(** ** The file handlers *)

(** X5. Whenever the path starts with none of the allowed directories,
    the read_file handler answers exactly "Error reading file: Access
    denied - path outside allowed directories" and makes no call at all:
    the file is not read. *)
Theorem read_file_outside_allowed_denied
    (os : OS) (path : jsstring) (h : history) :
  (forall dir, In dir (allowedDirectories CONFIG) ->
               startsWith path dir = false) ->
  read_file os path h
  = (Normal (textResponse (str
       "Error reading file: Access denied - path outside allowed directories")),
     h).
Proof.
  intros Hdir.
  assert (Hallowed : pathAllowed path = false)
    by now apply existsb_false_iff.
  now rewrite read_file_run, Hallowed.
Qed.

Lemma read_file_outside_allowed_denied_witness :
  read_file Sample.healthy (str "/etc/passwd") []
  = (Normal (textResponse (str
       "Error reading file: Access denied - path outside allowed directories")),
     []).
Proof.
  apply (read_file_outside_allowed_denied Sample.healthy (str "/etc/passwd") []).
  intros dir Hin. simpl in Hin. destruct Hin as [<-|[]]. reflexivity.
Defined.

(** X6. A failure of the file system on an allowed path is answered as
    text and never thrown: list_directory answers "Error listing
    directory: " and read_file answers "Error reading file: ", each
    followed by the message of the error, after the one call that
    failed. *)
Theorem file_system_failure_is_answered_as_text
    (os : OS) (path : jsstring) (h : history) (error : Error) :
  pathAllowed path = true ->
  (readdir os h path = inl error ->
   list_directory os path h
   = (Normal (textResponse
                (str "Error listing directory: " ++ message error)),
      h ++ [Readdir path])) /\
  (readFile os h path = inl error ->
   read_file os path h
   = (Normal (textResponse (str "Error reading file: " ++ message error)),
      h ++ [ReadFile path])).
Proof.
  intros Hallowed. split; intros Hfail.
  - now rewrite list_directory_run, Hallowed, Hfail.
  - now rewrite read_file_run, Hallowed, Hfail.
Qed.

Lemma file_system_failure_is_answered_as_text_witness :
  list_directory Sample.healthy (str "/Users/tanmay/Documents/gone") []
  = (Normal (textResponse
               (str "Error listing directory: "
                  ++ str "ENOENT: no such file or directory")),
     [] ++ [Readdir (str "/Users/tanmay/Documents/gone")]) /\
  read_file Sample.healthy (str "/Users/tanmay/Documents/gone") []
  = (Normal (textResponse
               (str "Error reading file: "
                  ++ str "ENOENT: no such file or directory")),
     [] ++ [ReadFile (str "/Users/tanmay/Documents/gone")]).
Proof.
  destruct (file_system_failure_is_answered_as_text Sample.healthy
              (str "/Users/tanmay/Documents/gone") []
              {| message := str "ENOENT: no such file or directory" |}
              eq_refl)
    as [Hlist Hread].
  split; [exact (Hlist eq_refl) | exact (Hread eq_refl)].
Defined.

(** X7. The text of a read_file response does not tell a failure from a
    success: a readable file that holds "Error reading file: " followed
    by some text gets the same response, after the same call, as a read
    that fails with that text as its message. *)
Theorem read_file_failure_text_is_ambiguous
    (os1 os2 : OS) (path : jsstring) (h : history) (m : jsstring) :
  pathAllowed path = true ->
  readFile os1 h path = inr (str "Error reading file: " ++ m) ->
  readFile os2 h path = inl {| message := m |} ->
  read_file os1 path h = read_file os2 path h.
Proof.
  intros Hallowed Hforged Hfail.
  now rewrite !read_file_run, Hallowed, Hforged, Hfail.
Qed.

Lemma read_file_failure_text_is_ambiguous_witness :
  read_file Scenario.forgedFile (str "/Users/tanmay/Documents/notes.txt") []
  = read_file Sample.healthy (str "/Users/tanmay/Documents/notes.txt") [].
Proof.
  apply (@read_file_failure_text_is_ambiguous
           Scenario.forgedFile Sample.healthy
           (str "/Users/tanmay/Documents/notes.txt") []
           (str "ENOENT: no such file or directory"));
    reflexivity.
Defined.

(** ** Telling a failure from a success *)

Lemma validateCommand_normal (command : jsstring) (ok : bool) :
  validateCommand command = Normal ok -> ok = true.
Proof.
  unfold validateCommand.
  destruct (find _ _); [discriminate|].
  destruct (_ && _); [discriminate|]. intros H. now injection H.
Qed.

Lemma formatResult_not_error (stdout stderr : jsstring) :
  startsWith (formatResult stdout stderr) (str "Error executing command: ")
  = false.
Proof.
  rewrite formatResult_sections. unfold outputSection.
  destruct stdout, stderr; reflexivity.
Qed.

Lemma listing_not_error (items : list Dirent) :
  startsWith
    (if truthy (join nl (map formatItem items))
     then join nl (map formatItem items)
     else str "Directory is empty")
    (str "Error listing directory: ")
  = false.
Proof.
  destruct items as [|item items]; [reflexivity|].
  assert (Hhead : exists rest,
             join nl (map formatItem (item :: items))
             = 91%N :: rest).
  { destruct items as [|next items]; cbn [map join]; unfold formatItem at 1;
      destruct (isDirectory item); eexists; reflexivity. }
  destruct Hhead as [rest ->]. reflexivity.
Qed.

(** X8. For execute-command and list_directory the prefix of the response
    text tells a failure from a success: the text of execute-command
    starts with "Error executing command: " exactly when validation threw
    or the execution was rejected, and the text of list_directory starts
    with "Error listing directory: " exactly when the path was refused or
    the listing failed. *)
Theorem error_prefix_marks_failure (os : OS) (h : history) :
  (forall (command : jsstring) (timeout : option number),
      exists t,
        fst (execute_command os command timeout h)
        = Normal (textResponse t) /\
        (startsWith t (str "Error executing command: ") = false <->
         validateCommand command = Normal true /\
         exists out,
           exec os
             (h ++ logActivityCalls os h (str "COMMAND_REQUESTED")
                     (requestedDetails command))
             command
             (Math_min (requestedTimeout timeout) (timeoutMs CONFIG))
             (maxOutputSize CONFIG)
           = inr out)) /\
  (forall path : jsstring,
      exists t,
        fst (list_directory os path h) = Normal (textResponse t) /\
        (startsWith t (str "Error listing directory: ") = false <->
         pathAllowed path = true /\
         exists items, readdir os h path = inr items)).
Proof.
  assert (Hprefix : forall prefix rest : jsstring,
             startsWith (prefix ++ rest) prefix = true).
  { intros prefix rest. apply startsWith_spec. now exists rest. }
  split.
  - intros command timeout. rewrite execute_command_run.
    destruct (validateCommand command) as [ok|error] eqn:Hv; cbn zeta.
    + apply validateCommand_normal in Hv as ->.
      destruct (exec os _ command _ _) as [error|out]; cbn [fst];
        eexists; (split; [reflexivity|]).
      * rewrite Hprefix. split; [discriminate|].
        intros [_ [out Hout]]. discriminate Hout.
      * rewrite formatResult_not_error. split; [|reflexivity].
        intros _. split; [reflexivity | now exists out].
    + cbn [fst]. eexists. split; [reflexivity|].
      rewrite Hprefix. split; [discriminate|].
      intros [Habs _]. discriminate Habs.
  - intros path. rewrite list_directory_run.
    destruct (pathAllowed path).
    + destruct (readdir os h path) as [error|items]; cbn zeta; cbn [fst];
        eexists; (split; [reflexivity|]).
      * rewrite Hprefix. split; [discriminate|].
        intros [_ [items Hitems]]. discriminate Hitems.
      * rewrite listing_not_error. split; [|reflexivity].
        intros _. split; [reflexivity | now exists items].
    + cbn [fst]. eexists. split; [reflexivity|].
      rewrite Hprefix. split; [discriminate|].
      intros [Habs _]. discriminate Habs.
Qed.

Lemma error_prefix_marks_failure_witness :
  exists t,
    fst (execute_command Sample.healthy (str "false") None [])
    = Normal (textResponse t) /\
    startsWith t (str "Error executing command: ") = true.
Proof.
  destruct (error_prefix_marks_failure Sample.healthy []) as [Hexecute _].
  destruct (Hexecute (str "false") None) as (t & Hrun & Hiff).
  exists t. split; [exact Hrun|].
  destruct (startsWith t (str "Error executing command: ")); [reflexivity|].
  destruct (proj1 Hiff eq_refl) as [_ [out Hout]].
  discriminate Hout.
Defined.

(** ** The calls of a run *)

Lemma fsReads_app (h1 h2 : history) :
  fsReads (h1 ++ h2) = fsReads h1 ++ fsReads h2.
Proof. apply filter_app. Qed.

Lemma diagnostics_app (h1 h2 : history) :
  diagnostics (h1 ++ h2) = diagnostics h1 ++ diagnostics h2.
Proof. apply filter_app. Qed.

Lemma fsReads_logActivityCalls (os : OS) h action details :
  fsReads (logActivityCalls os h action details) = [].
Proof.
  unfold logActivityCalls. destruct (appendFile os h _ _); reflexivity.
Qed.

Lemma logActivityCalls_stored_or_reported (os : OS) h action details :
  length (logSink (logActivityCalls os h action details))
  + length (diagnostics (logActivityCalls os h action details)) = 1.
Proof.
  unfold logActivityCalls.
  destruct (appendFile os h _ _); cbn [logSink];
    rewrite ?eqb_refl; reflexivity.
Qed.

(** X9. The first call of every run of the execute-command handler is
    the append of the COMMAND_REQUESTED record of its command to the log
    file: whatever the run does next, a process it spawns included, comes
    after that, and a command that is refused is recorded as well. *)
Theorem request_is_logged_first
    (os : OS) (command : jsstring) (timeout : option number) (h : history) :
  exists written rest,
    snd (execute_command os command timeout h)
    = h ++ AppendFile (logFile CONFIG)
             (logEntry (toISOString os h) (str "COMMAND_REQUESTED")
                [(str "command", JString command)])
             written :: rest.
Proof.
  rewrite execute_command_run. cbn zeta.
  assert (Hfirst : exists written more,
             logActivityCalls os h (str "COMMAND_REQUESTED")
               (requestedDetails command)
             = AppendFile (logFile CONFIG)
                 (logEntry (toISOString os h) (str "COMMAND_REQUESTED")
                    [(str "command", JString command)])
                 written :: more).
  { unfold logActivityCalls.
    destruct (appendFile os h _ _); eexists; eexists; reflexivity. }
  destruct Hfirst as (written & more & Hfirst). rewrite Hfirst.
  exists written.
  destruct (validateCommand command);
    [destruct (exec os _ command _ _)|]; cbn [snd];
    eexists; rewrite <- !app_assoc; cbn [app]; reflexivity.
Qed.

(** X10. Each tool keeps to its own kind of call.  A run of
    execute-command reads nothing through the file system interface and
    spawns at most one process, with the command as it was given and a
    buffer of 1 MiB; a run of list_directory or read_file spawns nothing
    and makes at most the one read of the path it was given. *)
Theorem tools_keep_to_their_calls (os : OS) (h : history) :
  (forall (command : jsstring) (timeout : option number),
      exists calls,
        snd (execute_command os command timeout h) = h ++ calls /\
        fsReads calls = [] /\
        (execCalls calls = [] \/
         execCalls calls
         = [Exec command
                 (Math_min (requestedTimeout timeout) (Finite 30000))
                 1048576])) /\
  (forall path : jsstring,
      exists calls,
        snd (list_directory os path h) = h ++ calls /\
        (calls = [] \/ calls = [Readdir path])) /\
  (forall path : jsstring,
      exists calls,
        snd (read_file os path h) = h ++ calls /\
        (calls = [] \/ calls = [ReadFile path])).
Proof.
  split; [|split].
  - intros command timeout. rewrite execute_command_run. cbn zeta.
    destruct (validateCommand command);
      [destruct (exec os _ command _ _)|]; cbn [snd];
      eexists; (split; [rewrite <- !app_assoc; reflexivity|]);
      rewrite !fsReads_app, !execCalls_app,
        !fsReads_logActivityCalls, !execCalls_logActivityCalls;
      (split; [reflexivity|]); cbn; auto.
  - intros path. rewrite list_directory_run.
    destruct (pathAllowed path);
      [destruct (readdir os h path)|]; cbn [snd].
    + exists [Readdir path]. auto.
    + exists [Readdir path]. auto.
    + exists []. rewrite app_nil_r. auto.
  - intros path. rewrite read_file_run.
    destruct (pathAllowed path);
      [destruct (readFile os h path)|]; cbn [snd].
    + exists [ReadFile path]. auto.
    + exists [ReadFile path]. auto.
    + exists []. rewrite app_nil_r. auto.
Qed.

(** X11. When a validated command is spawned and the execution is
    rejected (a timeout, an overfull buffer, a failed command), the
    response text is "Error executing command: " followed by the message
    of the rejection, and the logger is handed the request and then a
    COMMAND_ERROR record that carries the command and that message. *)
Theorem failed_execution_is_reported
    (os : OS) (command : jsstring) (timeout : option number) (h : history)
    (error : Error) :
  validateCommand command = Normal true ->
  exec os
    (h ++ logActivityCalls os h (str "COMMAND_REQUESTED")
            (requestedDetails command))
    command
    (Math_min (requestedTimeout timeout) (timeoutMs CONFIG))
    (maxOutputSize CONFIG)
  = inl error ->
  fst (execute_command os command timeout h)
  = Normal (textResponse (str "Error executing command: " ++ message error)) /\
  exists calls ts1 ts2,
    snd (execute_command os command timeout h) = h ++ calls /\
    execCalls calls
    = [Exec command
            (Math_min (requestedTimeout timeout) (timeoutMs CONFIG))
            (maxOutputSize CONFIG)] /\
    logAttempts calls
    = [logEntry ts1 (str "COMMAND_REQUESTED")
         [(str "command", JString command)];
       logEntry ts2 (str "COMMAND_ERROR")
         [(str "command", JString command);
          (str "error", JString (message error))]].
Proof.
  intros Hv Hexec.
  rewrite execute_command_run, Hv. cbn zeta. rewrite Hexec. cbn [fst snd].
  split; [reflexivity|].
  eexists; eexists; eexists.
  split; [rewrite <- !app_assoc; reflexivity|]. split.
  - now rewrite !execCalls_app, !execCalls_logActivityCalls.
  - rewrite !logAttempts_app, !logAttempts_logActivityCalls. reflexivity.
Qed.

Lemma failed_execution_is_reported_witness :
  fst (execute_command Sample.healthy (str "false") None [])
  = Normal (textResponse
              (str "Error executing command: " ++ str "Command failed: false")).
Proof.
  apply (@failed_execution_is_reported Sample.healthy (str "false") None []
           {| message := str "Command failed: false" |} eq_refl eq_refl).
Defined.

(** X12. No log write of the execute-command handler is lost silently:
    each of the two records of a run either reaches the log file or is
    reported once on the diagnostic channel. *)
Theorem log_writes_are_stored_or_reported
    (os : OS) (command : jsstring) (timeout : option number) (h : history) :
  exists calls,
    snd (execute_command os command timeout h) = h ++ calls /\
    length (logSink calls) + length (diagnostics calls) = 2.
Proof.
  rewrite execute_command_run. cbn zeta.
  destruct (validateCommand command);
    [destruct (exec os _ command _ _)|]; cbn [snd];
    eexists; (split; [rewrite <- !app_assoc; reflexivity|]);
    rewrite !logSink_app, !diagnostics_app, !length_app;
    match goal with
    | |- context [logActivityCalls os ?h1 (str "COMMAND_REQUESTED") ?d1] =>
        pose proof (logActivityCalls_stored_or_reported
                      os h1 (str "COMMAND_REQUESTED") d1)
    end;
    match goal with
    | |- context [logActivityCalls os ?h2 (str "COMMAND_EXECUTED") ?d2] =>
        pose proof (logActivityCalls_stored_or_reported
                      os h2 (str "COMMAND_EXECUTED") d2)
    | |- context [logActivityCalls os ?h2 (str "COMMAND_ERROR") ?d2] =>
        pose proof (logActivityCalls_stored_or_reported
                      os h2 (str "COMMAND_ERROR") d2)
    end;
    cbn [logSink diagnostics filter isConsoleError length] in *; lia.
Qed.



(** ** The lines of the log *)

Section LogLineFacts.

Local Open Scope N_scope.

Lemma printable_app (s t : jsstring) :
  printable s -> printable t -> printable (s ++ t).
Proof. intros Hs Ht. apply Forall_app. now split. Qed.

Lemma printable_join (sep : jsstring) (l : list jsstring) :
  printable sep -> (forall x, In x l -> printable x) ->
  printable (join sep l).
Proof.
  intros Hsep. induction l as [|x l IH]; intros Hl; [constructor|].
  destruct l as [|y l].
  - apply Hl. now left.
  - cbn [join]. apply printable_app; [apply Hl; now left|].
    apply printable_app; [exact Hsep|].
    apply IH. intros z Hz. apply Hl. now right.
Qed.

Lemma hexDigit_printable (n : N) : 32 <= hexDigit n.
Proof. unfold hexDigit. destruct (N.ltb n 10); lia. Qed.

Lemma quoteUnit_printable (c : N) : printable (quoteUnit c).
Proof.
  unfold quoteUnit, printable.
  repeat match goal with
         | |- context [if ?b then _ else _] => destruct b eqn:?
         end;
    try (repeat constructor; cbn; lia).
  - unfold unicodeEscape.
    repeat constructor; try apply hexDigit_printable; lia.
  - unfold unicodeEscape.
    repeat constructor; try apply hexDigit_printable; lia.
  - repeat constructor.
    match goal with H : N.ltb c 32 = false |- _ => apply N.ltb_ge in H end.
    assumption.
Qed.

Lemma quoteBody_printable (s : jsstring) : printable (quoteBody s).
Proof.
  assert (Hlen : forall n (s : jsstring),
             (length s <= n)%nat -> printable (quoteBody s)).
  { induction n as [|n IH]; intros [|c s0] Hle; try constructor;
      cbn [length] in Hle; try (exfalso; apply (Nat.nle_succ_0 _ Hle)).
    cbn [quoteBody]. destruct s0 as [|d rest].
    - apply quoteUnit_printable.
    - destruct (isLeadingSurrogate c && isTrailingSurrogate d) eqn:Hpair.
      + apply andb_true_iff in Hpair as [Hc Hd].
        unfold isLeadingSurrogate in Hc. unfold isTrailingSurrogate in Hd.
        apply andb_true_iff in Hc as [Hc _].
        apply andb_true_iff in Hd as [Hd _].
        apply N.leb_le in Hc. apply N.leb_le in Hd.
        constructor; [lia|]. constructor; [lia|].
        apply IH. cbn [length] in Hle. apply le_S_n in Hle.
        apply Nat.le_trans with (S (length rest)); [apply Nat.le_succ_diag_r|].
        exact Hle.
      + apply printable_app; [apply quoteUnit_printable|].
        apply IH. now apply le_S_n. }
  now apply (Hlen (length s)).
Qed.

Lemma quoteJSONString_printable (s : jsstring) :
  printable (quoteJSONString s).
Proof.
  unfold quoteJSONString.
  apply printable_app; [repeat constructor; lia|].
  apply printable_app; [apply quoteBody_printable | repeat constructor; lia].
Qed.

Lemma digits_printable (u : Decimal.uint) : printable (digits u).
Proof.
  induction u; cbn [digits]; constructor; try assumption; lia.
Qed.

Lemma literal_printable (s : string) :
  forallb (fun u => N.leb 32 u) (str s) = true -> printable (str s).
Proof.
  intros H. apply Forall_forall. intros u Hu.
  apply N.leb_le. exact (proj1 (forallb_forall _ _) H u Hu).
Qed.

Lemma stringifyField_printable (f : jsstring * jsvalue) :
  printable (stringifyField f).
Proof.
  unfold stringifyField.
  apply printable_app; [apply quoteJSONString_printable|].
  apply printable_app; [now apply literal_printable|].
  destruct (snd f) as [s|[|]|n]; cbn [stringifyValue].
  - apply quoteJSONString_printable.
  - now apply literal_printable.
  - now apply literal_printable.
  - apply digits_printable.
Qed.

Lemma JSON_stringify_printable (o : object) : printable (JSON_stringify o).
Proof.
  unfold JSON_stringify.
  apply printable_app; [now apply literal_printable|].
  apply printable_app; [|now apply literal_printable].
  apply printable_join; [now apply literal_printable|].
  intros x Hx. apply in_map_iff in Hx as (f & <- & _).
  apply stringifyField_printable.
Qed.

Lemma printable_no_line_break (s : jsstring) : printable s -> ~ In 10 s.
Proof.
  intros Hs Hin.
  pose proof (proj1 (Forall_forall _ _) Hs 10 Hin) as Hle. cbv beta in Hle.
  lia.
Qed.

End LogLineFacts.

(** X14. A log record is one line whatever its details hold: the JSON
    text of the details has no code unit below 32 (line breaks and the
    other control characters of a command or of an error message are
    written as escapes), so a record with a timestamp and an action free
    of line breaks has exactly one line break, its last code unit. *)
Theorem log_record_is_one_line (details : object) :
  Forall (fun u => (32 <= u)%N) (JSON_stringify details) /\
  forall timestamp action : jsstring,
    ~ In 10%N timestamp -> ~ In 10%N action ->
    exists body,
      logEntry timestamp action details = body ++ [10%N] /\
      ~ In 10%N body.
Proof.
  split; [apply JSON_stringify_printable|].
  intros timestamp action Hts Haction.
  exists (str "[" ++ timestamp ++ str "] " ++ action ++ str ": "
            ++ JSON_stringify details).
  split.
  - unfold logEntry, nl. now rewrite <- !app_assoc.
  - intros Hin.
    pose proof (printable_no_line_break (JSON_stringify_printable details))
      as Hjson.
    assert (Hliteral : forall s : string,
               forallb (fun u => N.leb 32 u) (str s) = true ->
               ~ In 10%N (str s)).
    { intros s Hs. apply printable_no_line_break.
      now apply literal_printable. }
    apply in_app_or in Hin as [Hin|Hin];
      [now apply (Hliteral "["%string)|].
    apply in_app_or in Hin as [Hin|Hin]; [tauto|].
    apply in_app_or in Hin as [Hin|Hin];
      [now apply (Hliteral "] "%string)|].
    apply in_app_or in Hin as [Hin|Hin]; [tauto|].
    apply in_app_or in Hin as [Hin|Hin];
      [now apply (Hliteral ": "%string) | tauto].
Qed.

Lemma log_record_is_one_line_witness :
  exists body,
    logEntry Sample.timestamp (str "COMMAND_REQUESTED")
      [(str "command", JString (str "echo a" ++ nl ++ str "echo b"))]
    = body ++ [10%N] /\
    ~ In 10%N body.
Proof.
  apply (proj2 (log_record_is_one_line
                  [(str "command",
                    JString (str "echo a" ++ nl ++ str "echo b"))])).
  - intros Hin. vm_compute in Hin.
    repeat destruct Hin as [Hin|Hin]; try discriminate Hin; contradiction.
  - intros Hin. vm_compute in Hin.
    repeat destruct Hin as [Hin|Hin]; try discriminate Hin; contradiction.
Defined.

(** ** What the response text leaves open *)

(** X15. The text of a successful execute-command response does not
    determine what was captured where: standard output that itself holds
    a "Standard Error:" header line gives the same text as the two
    streams kept apart. *)
Theorem formatResult_is_ambiguous (a b : jsstring) :
  a <> [] -> b <> [] ->
  formatResult (a ++ nl ++ str "Standard Error:" ++ nl ++ b) []
  = formatResult a b.
Proof.
  intros Ha Hb. rewrite !formatResult_sections. unfold outputSection.
  destruct a as [|c a]; [contradiction|].
  destruct b as [|d b]; [contradiction|].
  cbn [app]. rewrite app_nil_r.
  repeat (rewrite <- app_assoc || rewrite <- app_comm_cons).
  reflexivity.
Qed.

Lemma formatResult_is_ambiguous_witness :
  formatResult
    (str "done" ++ nl ++ str "Standard Error:" ++ nl ++ str "warning") []
  = formatResult (str "done") (str "warning").
Proof.
  apply (@formatResult_is_ambiguous (str "done") (str "warning"));
    discriminate.
Defined.

(** ** The first version of the server *)

(** X16. Version 1.0.0 of the execute-command handler has no gate and no
    log: every command, a blocked one as well, is spawned once as it was
    given and nothing else is called.  On a command that version 1.1.0
    validates, the two versions answer with the same response whenever
    the executor gives them the same answer. *)
Theorem v1_0_spawns_every_command
    (os : OS) (defaultTimeout : number) (defaultMaxBuffer : N)
    (command : jsstring) (h : history) :
  snd (V1_0.execute_command os defaultTimeout defaultMaxBuffer command h)
  = h ++ [Exec command defaultTimeout defaultMaxBuffer] /\
  forall (timeout : option number) (h' : history),
    validateCommand command = Normal true ->
    exec os
      (h' ++ logActivityCalls os h' (str "COMMAND_REQUESTED")
               (requestedDetails command))
      command
      (Math_min (requestedTimeout timeout) (timeoutMs CONFIG))
      (maxOutputSize CONFIG)
    = exec os h command defaultTimeout defaultMaxBuffer ->
    fst (execute_command os command timeout h')
    = fst (V1_0.execute_command os defaultTimeout defaultMaxBuffer command h).
Proof.
  unfold V1_0.execute_command, execPromise. step_m. split.
  - destruct (exec os h command defaultTimeout defaultMaxBuffer);
      reflexivity.
  - intros timeout h' Hv Hsame.
    rewrite execute_command_run, Hv. cbn zeta. rewrite Hsame.
    destruct (exec os h command defaultTimeout defaultMaxBuffer);
      reflexivity.
Qed.

Lemma v1_0_spawns_every_command_witness :
  snd (V1_0.execute_command Sample.healthy (Finite 0) 1048576
         (str "sudo rm -rf /") [])
  = [] ++ [Exec (str "sudo rm -rf /") (Finite 0) 1048576] /\
  fst (execute_command Sample.healthy (str "echo hello") None [])
  = fst (V1_0.execute_command Sample.healthy (Finite 0) 1048576
           (str "echo hello") []).
Proof.
  split.
  - apply (v1_0_spawns_every_command Sample.healthy (Finite 0) 1048576
             (str "sudo rm -rf /") []).
  - apply (proj2 (v1_0_spawns_every_command Sample.healthy (Finite 0)
                    1048576 (str "echo hello") []) None []);
      reflexivity.
Defined.

(** ** Start-up and signals *)

Section LifecycleFacts.

Import Lifecycle.

Variable os : OS.

Lemma skipn_length_app {A} (l1 l2 : list A) :
  skipn (length l1) (l1 ++ l2) = l2.
Proof. induction l1 as [|a l1 IH]; [reflexivity | exact IH]. Qed.

Lemma call_logActivity action details (t : trace) :
  call (logActivity os action details) t
  = (Returned tt,
     t ++ map Call (logActivityCalls os (osCalls t) action details)).
Proof.
  unfold call. rewrite logActivity_run. now rewrite skipn_length_app.
Qed.

Lemma call_console_error label error (t : trace) :
  call (console_error label error) t
  = (Returned tt, t ++ [Call (ConsoleError label error)]).
Proof.
  unfold call, console_error. now rewrite skipn_length_app.
Qed.

End LifecycleFacts.

(** X17. [main] hands the logger the SERVER_START record before it
    connects.  When the connection succeeds it prints the banner and the
    process goes on; when it fails, [main] reports the error on the
    diagnostic channel and exits with code 1.  Its promise is never
    rejected, so a handler attached with [catch] never runs. *)
Theorem main_starts_or_exits_with_1
    (os : OS) (connect : Lifecycle.trace -> option Error)
    (t : Lifecycle.trace) :
  let started :=
    t ++ map Lifecycle.Call
           (logActivityCalls os (Lifecycle.osCalls t) (str "SERVER_START")
              [(str "version", JString (str "1.1.0"))]) in
  (connect started = None ->
   Lifecycle.main os connect t
   = (Lifecycle.Returned tt,
      started ++
      [Lifecycle.Connect;
       Lifecycle.Notice (str "Terminal MCP Server running on stdio")])) /\
  (forall error,
      connect started = Some error ->
      Lifecycle.main os connect t
      = (Lifecycle.Exited 1%Z,
         started ++
         [Lifecycle.Connect;
          Lifecycle.Call (ConsoleError (str "Error starting server:") error);
          Lifecycle.Exit 1%Z])) /\
  (forall handler : Error -> Lifecycle.P unit,
      Lifecycle.orCatch (Lifecycle.main os connect) handler t
      = Lifecycle.main os connect t).
Proof.
  intros started.
  assert (Hrun :
    Lifecycle.main os connect t
    = match connect started with
      | None =>
          (Lifecycle.Returned tt,
           started ++
           [Lifecycle.Connect;
            Lifecycle.Notice (str "Terminal MCP Server running on stdio")])
      | Some error =>
          (Lifecycle.Exited 1%Z,
           started ++
           [Lifecycle.Connect;
            Lifecycle.Call
              (ConsoleError (str "Error starting server:") error);
            Lifecycle.Exit 1%Z])
      end).
  { unfold Lifecycle.main, Lifecycle.orCatch, Lifecycle.andThen.
    rewrite call_logActivity. fold started.
    unfold Lifecycle.server_connect, Lifecycle.console_notice.
    destruct (connect started) as [error|].
    - rewrite call_console_error. unfold Lifecycle.process_exit.
      now rewrite <- !app_assoc.
    - now rewrite <- !app_assoc. }
  split; [|split].
  - intros Hok. now rewrite Hrun, Hok.
  - intros error Hfail. now rewrite Hrun, Hfail.
  - intros handler. unfold Lifecycle.orCatch at 1. rewrite Hrun.
    destruct (connect started); reflexivity.
Qed.

Lemma main_starts_or_exits_with_1_witness :
  fst (Lifecycle.main Sample.healthy Scenario.connects [])
  = Lifecycle.Returned tt /\
  fst (Lifecycle.main Sample.readOnlyLog Scenario.connects [])
  = Lifecycle.Returned tt /\
  fst (Lifecycle.main Sample.healthy Scenario.refuses [])
  = Lifecycle.Exited 1%Z.
Proof.
  destruct (main_starts_or_exits_with_1 Sample.healthy Scenario.connects [])
    as (Hok1 & _ & _).
  destruct (main_starts_or_exits_with_1 Sample.readOnlyLog
              Scenario.connects [])
    as (Hok2 & _ & _).
  destruct (main_starts_or_exits_with_1 Sample.healthy Scenario.refuses [])
    as (_ & Hfail & _).
  rewrite (Hok1 eq_refl), (Hok2 eq_refl),
    (Hfail {| message := str "stdin is closed" |} eq_refl).
  repeat split.
Defined.

(** X18. On SIGINT and on SIGTERM the process hands the logger one
    SERVER_SHUTDOWN record that names the signal and then exits with
    code 0; it does so whether or not the record could be written, and
    the exit is its last step. *)
Theorem signal_logs_then_exits_with_0 (os : OS) (t : Lifecycle.trace) :
  (exists calls,
      Lifecycle.onSIGINT os t
      = (Lifecycle.Exited 0%Z,
         t ++ map Lifecycle.Call calls ++ [Lifecycle.Exit 0%Z]) /\
      logAttempts calls
      = [logEntry (toISOString os (Lifecycle.osCalls t))
           (str "SERVER_SHUTDOWN")
           [(str "reason", JString (str "SIGINT"))]]) /\
  (exists calls,
      Lifecycle.onSIGTERM os t
      = (Lifecycle.Exited 0%Z,
         t ++ map Lifecycle.Call calls ++ [Lifecycle.Exit 0%Z]) /\
      logAttempts calls
      = [logEntry (toISOString os (Lifecycle.osCalls t))
           (str "SERVER_SHUTDOWN")
           [(str "reason", JString (str "SIGTERM"))]]).
Proof.
  split.
  - eexists. split.
    + unfold Lifecycle.onSIGINT, Lifecycle.andThen.
      rewrite call_logActivity. unfold Lifecycle.process_exit.
      rewrite <- app_assoc. reflexivity.
    + apply logAttempts_logActivityCalls.
  - eexists. split.
    + unfold Lifecycle.onSIGTERM, Lifecycle.andThen.
      rewrite call_logActivity. unfold Lifecycle.process_exit.
      rewrite <- app_assoc. reflexivity.
    + apply logAttempts_logActivityCalls.
Qed.

(** The file-operation pattern at work on a command that only holds
    [rm] inside a longer word. *)
Lemma fileOperationPattern_spec_witness :
  test fileOperationPattern (str "npm run perform") = true.
Proof.
  apply (proj2 (fileOperationPattern_spec (str "npm run perform"))).
  right. right. left. reflexivity.
Defined.
